(** * Email assistant: a shallow embedding of the stateful pipeline

    The development follows the Python sources under [execution/]:
    - [categorize_emails.py]      (module [Categorize]),
    - [manage_client_context.py]  (module [Context]),
    - [extract_invoice_data.py]   (module [Extract]),
    - [apply_gmail_labels.py]     (module [Labels]),
    - [organize_emails.py]        (module [Orchestrate]).

    Modelling conventions.
    - Python [str] is [string]; [strip] and [lower] are given for the ASCII
      range (code points above 127 are left alone).
    - A Python [dict] read from JSON is an association list in insertion
      order; a Python float is a rational number.
    - Everything the program cannot decide by itself (the answer of an
      inference provider, the answer of the mail service, the wall clock)
      is an oracle indexed by the number of the request; the requests that
      were issued are logged in the state, so that theorems can count them.
    - Files are kept by name, and a write is taken to succeed: a run in
      which [open] or [json.dump] raises ends there, so what is said of
      the files after a run is said of runs that return.
    - [print] calls are not modelled. *)

From Stdlib Require Import String Ascii List ZArith QArith Bool Lia.
From stdpp Require Import base option list strings gmap.

Local Open Scope string_scope.
Local Open Scope list_scope.

(** ** Python built-ins used by the sources *)

Module Py.

Definition nl : string := String "010"%char EmptyString.
Definition dq : string := String "034"%char EmptyString.

(** [str.isspace] restricted to ASCII: TAB..CR, FS..US and the blank. *)
Definition is_space (c : ascii) : bool :=
  let n := nat_of_ascii c in
  ((9 <=? n)%nat && (n <=? 13)%nat) || ((28 <=? n)%nat && (n <=? 32)%nat).

Definition lower_char (c : ascii) : ascii :=
  let n := nat_of_ascii c in
  if (65 <=? n)%nat && (n <=? 90)%nat then ascii_of_nat (n + 32) else c.

Fixpoint drop_while (p : ascii -> bool) (l : list ascii) : list ascii :=
  match l with
  | [] => []
  | c :: r => if p c then drop_while p r else l
  end.

Definition strip_chars (p : ascii -> bool) (s : string) : string :=
  string_of_list_ascii
    (rev (drop_while p (rev (drop_while p (list_ascii_of_string s))))).

(** [s.strip()] *)
Definition strip (s : string) : string := strip_chars is_space s.

(** [s.lower()] *)
Definition lower (s : string) : string :=
  string_of_list_ascii (map lower_char (list_ascii_of_string s)).

(** [s[:n]] *)
Definition take_str (n : nat) (s : string) : string := substring 0 n s.

(** [sep.join(l)] *)
Definition join (sep : string) (l : list string) : string := String.concat sep l.

(** Truth value of [None], [''] and non-empty strings. *)
Definition truthy (k : option string) : bool :=
  match k with
  | Some (String _ _) => true
  | _ => false
  end.

Fixpoint is_prefix (p s : list ascii) : bool :=
  match p, s with
  | [], _ => true
  | a :: p', b :: s' => Ascii.eqb a b && is_prefix p' s'
  | _ :: _, [] => false
  end.

(** [sep in s] as lists of characters. *)
Fixpoint contains_l (sep s : list ascii) : bool :=
  is_prefix sep s ||
  match s with
  | [] => false
  | _ :: s' => contains_l sep s'
  end.

(** [sep in s] *)
Definition contains (sep s : string) : bool :=
  contains_l (list_ascii_of_string sep) (list_ascii_of_string s).

(** [s.split(sep)[0]] and the rest after the first [sep], when [sep]
    occurs; [(s, None)] when it does not.  [sep] is not empty. *)
Fixpoint split_once_l (sep s : list ascii) : list ascii * option (list ascii) :=
  if is_prefix sep s then ([], Some (drop (length sep) s))
  else match s with
       | [] => ([], None)
       | c :: s' => let '(h, t) := split_once_l sep s' in (c :: h, t)
       end.

Definition split_once (sep s : string) : string * option string :=
  let '(h, t) := split_once_l (list_ascii_of_string sep) (list_ascii_of_string s) in
  (string_of_list_ascii h, string_of_list_ascii <$> t).

(** [s.split(sep)[0]] *)
Definition split_0 (sep s : string) : string := fst (split_once sep s).

(** [s.split(sep)[1]]; [None] is the [IndexError]. *)
Definition split_1 (sep s : string) : option string :=
  match snd (split_once sep s) with
  | Some t => Some (split_0 sep t)
  | None => None
  end.

End Py.

(** ** JSON values and dictionaries *)

#[local] Set Warnings "-register-all".

Inductive json : Type :=
| JNull
| JBool (b : bool)
| JNum (q : Q)
| JStr (s : string)
| JArr (l : list json)
| JObj (d : list (string * json)).

Definition dict := list (string * json).

(** [d.get(k)] *)
Fixpoint dict_get {V} (k : string) (d : list (string * V)) : option V :=
  match d with
  | [] => None
  | (k', v) :: r => if String.eqb k k' then Some v else dict_get k r
  end.

(** [d.get(k, dflt)] *)
Definition dict_get_default {V} (k : string) (dflt : V) (d : list (string * V)) : V :=
  match dict_get k d with
  | Some v => v
  | None => dflt
  end.

(** [d[k] = v]: an existing key keeps its position. *)
Fixpoint dict_set {V} (k : string) (v : V) (d : list (string * V)) : list (string * V) :=
  match d with
  | [] => [(k, v)]
  | (k', v') :: r =>
      if String.eqb k k' then (k, v) :: r else (k', v') :: dict_set k v r
  end.

(** [d.values()] *)
Definition dict_values (d : dict) : list json := map snd d.

Definition is_null (j : json) : bool :=
  match j with
  | JNull => true
  | _ => false
  end.

(** ** A state monad for the stages *)

Definition State (S A : Type) : Type := S -> A * S.

Definition ret {S A} (a : A) : State S A := fun s => (a, s).

Definition bind {S A B} (m : State S A) (k : A -> State S B) : State S B :=
  fun s => let '(a, s') := m s in k a s'.

Declare Scope state_scope.
Delimit Scope state_scope with state.
Notation "'let*' x ':=' m 'in' k" := (bind m (fun x => k))
  (at level 10, x name, m at level 100, k at level 200) : state_scope.

(** ** Emails *)

Record Attachment := {
  a_filename : string;
  a_mimeType : string;
  a_attachmentId : option string;
  a_size : Z
}.

(** The object built by [fetch_emails]; [category] is added by the
    classifier.  [labelIds] and [category] are read with [.get]. *)
Record Email := {
  e_id : string;
  e_threadId : string;
  e_labelIds : option (list string);
  e_snippet : string;
  e_subject : string;
  e_from : string;
  e_to : string;
  e_date : string;
  e_body : string;
  e_attachments : list Attachment;
  e_category : option string
}.

(** [email['category'] = c] *)
Definition set_category (c : string) (e : Email) : Email :=
  {| e_id := e_id e; e_threadId := e_threadId e; e_labelIds := e_labelIds e;
     e_snippet := e_snippet e; e_subject := e_subject e; e_from := e_from e;
     e_to := e_to e; e_date := e_date e; e_body := e_body e;
     e_attachments := e_attachments e; e_category := Some c |}.

(** The attachment object built by [get_attachments_info]. *)
Definition attachment_to_json (a : Attachment) : json :=
  JObj [ ("filename", JStr (a_filename a));
         ("mimeType", JStr (a_mimeType a));
         ("attachmentId", match a_attachmentId a with
                          | Some i => JStr i
                          | None => JNull
                          end);
         ("size", JNum (inject_Z (a_size a))) ].

(** The email object as [json.dump] sees it, keys in insertion order. *)
Definition email_to_json (e : Email) : json :=
  JObj ([ ("id", JStr (e_id e)); ("threadId", JStr (e_threadId e)) ]
        ++ match e_labelIds e with
           | Some l => [ ("labelIds", JArr (map JStr l)) ]
           | None => []
           end
        ++ [ ("snippet", JStr (e_snippet e)); ("subject", JStr (e_subject e));
             ("from", JStr (e_from e)); ("to", JStr (e_to e));
             ("date", JStr (e_date e)); ("body", JStr (e_body e));
             ("attachments", JArr (map attachment_to_json (e_attachments e))) ]
        ++ match e_category e with
           | Some c => [ ("category", JStr c) ]
           | None => []
           end).

(** ** categorize_emails.py *)

Module Categorize.
Import Py.
Local Open Scope state_scope.

Definition CATEGORIES : list (string * string) :=
  [ ("advertising", "Marketing, promotional content, newsletters, spam");
    ("invoice", "Bills, invoices, payment requests, receipts, financial statements");
    ("important_update",
     "Product updates, service changes, critical notifications, account alerts");
    ("new_client_inquiry",
     "First-time contact, new business opportunities, quote requests");
    ("existing_client",
     "Ongoing conversations with known clients, project communications");
    ("other", "Everything else that doesn't fit the above categories") ].

(** [category in CATEGORIES] (membership among the keys) *)
Definition in_CATEGORIES (category : string) : bool :=
  existsb (String.eqb category) (map fst CATEGORIES).

Inductive Provider := Anthropic | OpenAI.

(** One completion request, as the two client libraries receive it. *)
Record Request := {
  rq_provider : Provider;
  rq_api_key : option string;
  rq_model : string;
  rq_max_tokens : nat;
  rq_prompt : string
}.

(** The stage's state: the requests issued so far, oldest first. *)
Definition Log := list Request.

Inductive exn := ValueError (msg : string).

(** The f-string [email_text], the same in both provider functions. *)
Definition email_text (email_data : Email) : string :=
  nl +:+ "Subject: " +:+ e_subject email_data +:+ nl +:+
  "From: " +:+ e_from email_data +:+ nl +:+
  "Date: " +:+ e_date email_data +:+ nl +:+
  "Snippet: " +:+ e_snippet email_data +:+ nl +:+
  nl +:+
  "Body (first 1000 chars):" +:+ nl +:+
  take_str 1000 (e_body email_data) +:+ nl +:+
  nl +:+
  "Attachments: " +:+ join ", " (map a_filename (e_attachments email_data)) +:+ nl.

Definition categories_list : string :=
  join nl (map (fun kv => "- " +:+ fst kv +:+ ": " +:+ snd kv) CATEGORIES).

Definition prompt (email_data : Email) : string :=
  "You are an email categorization assistant. Categorize the following email into ONE of these categories:"
  +:+ nl +:+ nl +:+ categories_list +:+ nl +:+ nl +:+
  "Email to categorize:" +:+ nl +:+ email_text email_data +:+ nl +:+ nl +:+
  "Respond with ONLY the category name (e.g., " +:+ dq +:+ "invoice" +:+ dq +:+
  " or " +:+ dq +:+ "new_client_inquiry" +:+ dq +:+ "). No explanations.".

Section WithProviders.

(** [complete n] is what the [n]-th request of the run yields inside the
    [try] block: [Some text] is the text of the first content block or
    choice, [None] is any exception (timeout, transport error, a response
    without text). *)
Variable complete : nat -> option string.

Definition send (r : Request) : State Log (option string) :=
  fun log => (complete (length log), log ++ [r]).

Definition categorize_with_anthropic (email_data : Email) (api_key : option string)
  : State Log (option string) :=
  let* reply := send {| rq_provider := Anthropic; rq_api_key := api_key;
                        rq_model := "claude-3-5-sonnet-20241022";
                        rq_max_tokens := 50; rq_prompt := prompt email_data |} in
  match reply with
  | Some text =>
      let category := lower (strip text) in
      let category := if in_CATEGORIES category then category else "other" in
      ret (Some category)
  | None => ret None
  end.

Definition categorize_with_openai (email_data : Email) (api_key : option string)
  : State Log (option string) :=
  let* reply := send {| rq_provider := OpenAI; rq_api_key := api_key;
                        rq_model := "gpt-4o-mini";
                        rq_max_tokens := 50; rq_prompt := prompt email_data |} in
  match reply with
  | Some text =>
      let category := lower (strip text) in
      let category := if in_CATEGORIES category then category else "other" in
      ret (Some category)
  | None => ret None
  end.

(** The body of the loop of [categorize_emails]. *)
Definition categorize_one (use_anthropic : bool) (anthropic_key openai_key : option string)
    (email : Email) : State Log Email :=
  let* category :=
    if use_anthropic then categorize_with_anthropic email anthropic_key
    else categorize_with_openai email openai_key in
  let* category :=
    match category with
    | None =>
        if use_anthropic && truthy openai_key
        then categorize_with_openai email openai_key
        else if negb use_anthropic && truthy anthropic_key
        then categorize_with_anthropic email anthropic_key
        else ret None
    | Some _ => ret category
    end in
  let category :=
    match category with
    | None => "other"
    | Some c => c
    end in
  ret (set_category category email).

Fixpoint categorize_loop (use_anthropic : bool) (anthropic_key openai_key : option string)
    (emails categorized : list Email) : State Log (list Email) :=
  match emails with
  | [] => ret categorized
  | email :: rest =>
      let* email' := categorize_one use_anthropic anthropic_key openai_key email in
      categorize_loop use_anthropic anthropic_key openai_key rest (categorized ++ [email'])
  end.

(** [anthropic_key] and [openai_key] are the two [os.getenv] results. *)
Definition categorize_emails (anthropic_key openai_key : option string)
    (emails : list Email) (use_anthropic : bool) : State Log (exn + list Email) :=
  let use_anthropic :=
    if use_anthropic && negb (truthy anthropic_key) then false else use_anthropic in
  if negb use_anthropic && negb (truthy openai_key)
  then ret (inl (ValueError "No valid API keys found in .env file"))
  else
    let* categorized :=
      categorize_loop use_anthropic anthropic_key openai_key emails [] in
    ret (inr categorized).

End WithProviders.

(** The request each provider function issues for an email. *)
Definition request_of (p : Provider) (key : option string) (email : Email) : Request :=
  match p with
  | Anthropic => {| rq_provider := Anthropic; rq_api_key := key;
                    rq_model := "claude-3-5-sonnet-20241022";
                    rq_max_tokens := 50; rq_prompt := prompt email |}
  | OpenAI => {| rq_provider := OpenAI; rq_api_key := key;
                 rq_model := "gpt-4o-mini";
                 rq_max_tokens := 50; rq_prompt := prompt email |}
  end.

Definition primary (use_anthropic : bool) : Provider :=
  if use_anthropic then Anthropic else OpenAI.
Definition secondary (use_anthropic : bool) : Provider :=
  if use_anthropic then OpenAI else Anthropic.
Definition key_of (p : Provider) (anthropic_key openai_key : option string) : option string :=
  match p with
  | Anthropic => anthropic_key
  | OpenAI => openai_key
  end.

(** The token a provider function returns for a reply text. *)
Definition validated (text : string) : string :=
  if in_CATEGORIES (lower (strip text)) then lower (strip text) else "other".

(** The loop of [save_categorization_results] over [category_counts]. *)
Fixpoint count_categories (emails : list Email) (category_counts : list (string * nat))
  : list (string * nat) :=
  match emails with
  | [] => category_counts
  | email :: rest =>
      let cat := default "other" (e_category email) in
      count_categories rest
        (dict_set cat (dict_get_default cat 0 category_counts + 1) category_counts)
  end.

(** The object [save_categorization_results] hands to [json.dump]. *)
Definition categorization_results (emails : list Email) : json :=
  let category_counts := count_categories emails [] in
  JObj [ ("total_emails", JNum (inject_Z (Z.of_nat (length emails))));
         ("category_counts",
          JObj (map (fun kv => (fst kv, JNum (inject_Z (Z.of_nat (snd kv)))))
                    category_counts));
         ("emails", JArr (map email_to_json emails)) ].

(** The category [save_categorization_results] counts an email under. *)
Definition counted_as (c : string) (e : Email) : bool :=
  String.eqb (default "other" (e_category e)) c.

(** A request that carries a usable key. *)
Definition keyed (r : Request) : Prop := truthy (rq_api_key r) = true.

(** *** Sample data *)

Definition sample_email : Email :=
  {| e_id := "m1"; e_threadId := "t1"; e_labelIds := Some ["INBOX"];
     e_snippet := "Invoice #4471"; e_subject := "Your invoice";
     e_from := "Billing <billing@vendor.com>"; e_to := "me@x.com";
     e_date := "Mon, 1 Jan 2024 10:00:00 +0000";
     e_body := "Invoice #4471, Total Due: $230.00";
     e_attachments := []; e_category := None |}.

(** A provider that answers every request with the same text. *)
Definition always (text : string) : nat -> option string := fun _ => Some text.
(** A provider whose every request fails. *)
Definition down : nat -> option string := fun _ => None.
(** The first request fails, the later ones answer [text]. *)
Definition first_fails (text : string) : nat -> option string :=
  fun n => match n with O => None | S _ => Some text end.

(** An email as the classifier leaves it. *)
Definition classified (e e' : Email) : Prop :=
  exists c, e' = set_category c e /\ In c (map fst CATEGORIES).

(** The stage raises exactly when no usable key is left. *)
Definition usable_keys (ak ok : option string) (use_anthropic : bool) : bool :=
  truthy ok || (use_anthropic && truthy ak).

End Categorize.

(** ** manage_client_context.py *)

Module Context.
Import Py.
Local Open Scope state_scope.

(** *** Sender key and display name *)

Definition is_gt (c : ascii) : bool := Ascii.eqb c ">".
Definition is_lt (c : ascii) : bool := Ascii.eqb c "<".
Definition is_newline (c : ascii) : bool := Ascii.eqb c "010".

(** The lazy group of [<(.+?)>] once its first character is taken: extend
    it up to the first [>]; the dot does not match a newline. *)
Fixpoint lazy_group (acc rest : list ascii) : option (list ascii) :=
  match rest with
  | [] => None
  | c :: r =>
      if is_gt c then Some acc
      else if is_newline c then None
      else lazy_group (acc ++ [c]) r
  end.

(** A match of [(.+?)>] at the head of [s]. *)
Definition group_here (s : list ascii) : option (list ascii) :=
  match s with
  | [] => None
  | c :: r => if is_newline c then None else lazy_group [c] r
  end.

(** [re.search(r'<(.+?)>', s)]: the group of the leftmost match. *)
Fixpoint search_angle (s : list ascii) : option (list ascii) :=
  match s with
  | [] => None
  | c :: r =>
      if is_lt c then
        match group_here r with
        | Some g => Some g
        | None => search_angle r
        end
      else search_angle r
  end.

Definition extract_sender_email (from_field : string) : string :=
  match search_angle (list_ascii_of_string from_field) with
  | Some g => lower (strip (string_of_list_ascii g))
  | None => lower (strip from_field)
  end.

Definition extract_sender_name (from_field : string) : string :=
  if contains "<" from_field then
    let name := strip_chars (Ascii.eqb "034") (strip (split_0 "<" from_field)) in
    match name with
    | EmptyString => "Unknown"
    | _ => name
    end
  else "Unknown".

(** *** Context records *)

Record Communication := {
  comm_email_id : string;
  comm_date : string;
  comm_subject : string;
  comm_topic : json;
  comm_key_points : json
}.

Record ActionItem := {
  item_description : json;
  item_status : string;
  item_created : string;
  item_urgency : json
}.

Record ClientContext := {
  client_email : string;
  client_name : string;
  first_contact : string;
  last_contact : string;
  project_summary : json;
  inquiry_type : json;
  status : string;
  communications : list Communication;
  action_items : list ActionItem;
  created_at : string;
  updated_at : string
}.

(** [context['communications'].append(c)] *)
Definition append_communication (c : Communication) (context : ClientContext) : ClientContext :=
  {| client_email := client_email context; client_name := client_name context;
     first_contact := first_contact context; last_contact := last_contact context;
     project_summary := project_summary context; inquiry_type := inquiry_type context;
     status := status context;
     communications := communications context ++ [c];
     action_items := action_items context;
     created_at := created_at context; updated_at := updated_at context |}.

(** [context['action_items'].append(a)] *)
Definition append_action_item (a : ActionItem) (context : ClientContext) : ClientContext :=
  {| client_email := client_email context; client_name := client_name context;
     first_contact := first_contact context; last_contact := last_contact context;
     project_summary := project_summary context; inquiry_type := inquiry_type context;
     status := status context;
     communications := communications context;
     action_items := action_items context ++ [a];
     created_at := created_at context; updated_at := updated_at context |}.

(** [context['last_contact'] = d; context['updated_at'] = t] *)
Definition set_timestamps (d t : string) (context : ClientContext) : ClientContext :=
  {| client_email := client_email context; client_name := client_name context;
     first_contact := first_contact context; last_contact := d;
     project_summary := project_summary context; inquiry_type := inquiry_type context;
     status := status context;
     communications := communications context;
     action_items := action_items context;
     created_at := created_at context; updated_at := t |}.

(** *** The world of the stage *)

(** What a request to the provider is built from; the prompt text is a
    function of it. *)
Inductive Request :=
| NewInquiry (email : Email)
| FollowUp (context : ClientContext) (email : Email).

(** [files] maps a sender key [k] to the content of
    [client_contexts/k/context.json]; [requests] logs the provider
    requests; [ticks] counts the readings of the clock. *)
Record World := {
  files : gmap string ClientContext;
  requests : list Request;
  ticks : nat
}.

Definition empty_world : World := {| files := ∅; requests := []; ticks := 0 |}.

(** A later process starts from the files alone. *)
Definition restart (w : World) : World :=
  {| files := files w; requests := []; ticks := 0 |}.

Inductive exn := ValueError (msg : string).

Record Summary := {
  total_processed : nat;
  contexts_created : nat;
  contexts_updated : nat
}.

(** [for x in v]: the items of a list, the characters of a string, the
    keys of a dict; [None] is the [TypeError] of the other values. *)
Definition py_iter (v : json) : option (list json) :=
  match v with
  | JArr l => Some l
  | JStr s => Some (map (fun c => JStr (String c EmptyString)) (list_ascii_of_string s))
  | JObj d => Some (map (fun kv => JStr (fst kv)) d)
  | _ => None
  end.

Section WithProvider.

(** [analyse n] is what the [n]-th request yields up to and including
    [json.loads]: [Some j] is the parsed answer, [None] is any exception
    (timeout, transport error, empty content, text that is not JSON). *)
Variable analyse : nat -> option json.

(** [now n] is the [n]-th reading of [datetime.now().isoformat()]. *)
Variable now : nat -> string.

Definition send (r : Request) : State World (option json) :=
  fun w => (analyse (length (requests w)),
            {| files := files w; requests := requests w ++ [r]; ticks := ticks w |}).

Definition datetime_now : State World string :=
  fun w => (now (ticks w),
            {| files := files w; requests := requests w; ticks := S (ticks w) |}).

(** The store is kept by directory name: [files w !! k] is the record
    in [client_contexts/k/context.json].  The program builds that path
    from the key, so the two agree for a key that is the name of one
    directory entry ([plain_key] below); a key with a separator or a dot
    component names the file of another key, which the map does not
    follow.  Statements that tell the files of different keys apart
    assume plain keys. *)
Definition load_context (sender_email : string) : State World (option ClientContext) :=
  fun w => (files w !! sender_email, w).

(** [json.dump] is taken to succeed; a run in which it raises ends there,
    with the file it had opened cut short, so what is said of the store
    after a run is said of runs that return. *)
Definition save_context (context : ClientContext) : State World unit :=
  fun w => (tt, {| files := <[client_email context := context]> (files w);
                   requests := requests w; ticks := ticks w |}).

Definition create_new_context (email : Email) (anthropic_key : option string)
  : State World ClientContext :=
  let sender_email := extract_sender_email (e_from email) in
  let sender_name := extract_sender_name (e_from email) in
  let* reply := send (NewInquiry email) in
  match reply with
  | Some (JObj analysis) =>
      let* created := datetime_now in
      let* created_at := datetime_now in
      let* updated_at := datetime_now in
      ret {| client_email := sender_email;
             client_name := sender_name;
             first_contact := e_date email;
             last_contact := e_date email;
             project_summary :=
               dict_get_default "project_summary" (JStr "No summary available") analysis;
             inquiry_type := dict_get_default "inquiry_type" (JStr "General inquiry") analysis;
             status := "active";
             communications :=
               [ {| comm_email_id := e_id email;
                    comm_date := e_date email;
                    comm_subject := e_subject email;
                    comm_topic :=
                      dict_get_default "inquiry_type" (JStr "Initial contact") analysis;
                    comm_key_points := dict_get_default "key_points" (JArr []) analysis |} ];
             action_items :=
               [ {| item_description := JStr "Respond to initial inquiry";
                    item_status := "pending";
                    item_created := created;
                    item_urgency := dict_get_default "urgency" (JStr "medium") analysis |} ];
             created_at := created_at;
             updated_at := updated_at |}
  | _ =>
      (* Fallback: basic context without LLM analysis *)
      let* created := datetime_now in
      let* created_at := datetime_now in
      let* updated_at := datetime_now in
      ret {| client_email := sender_email;
             client_name := sender_name;
             first_contact := e_date email;
             last_contact := e_date email;
             project_summary := JStr (e_subject email);
             inquiry_type := JStr "General inquiry";
             status := "active";
             communications :=
               [ {| comm_email_id := e_id email;
                    comm_date := e_date email;
                    comm_subject := e_subject email;
                    comm_topic := JStr "Initial contact";
                    comm_key_points := JArr [] |} ];
             action_items :=
               [ {| item_description := JStr "Respond to initial inquiry";
                    item_status := "pending";
                    item_created := created;
                    item_urgency := JStr "medium" |} ];
             created_at := created_at;
             updated_at := updated_at |}
  end.

(** The loop over [new_action_items]. *)
Fixpoint add_action_items (items : list json) (context : ClientContext)
  : State World ClientContext :=
  match items with
  | [] => ret context
  | item_desc :: rest =>
      let* created := datetime_now in
      add_action_items rest
        (append_action_item {| item_description := item_desc;
                               item_status := "pending";
                               item_created := created;
                               item_urgency := JStr "medium" |} context)
  end.

(** The [except] branch of [update_existing_context]; it runs on the
    context object as the [try] block left it. *)
Definition basic_update (context : ClientContext) (email : Email) : State World ClientContext :=
  let context :=
    append_communication {| comm_email_id := e_id email;
                            comm_date := e_date email;
                            comm_subject := e_subject email;
                            comm_topic := JStr "Follow-up";
                            comm_key_points := JArr [] |} context in
  let* updated_at := datetime_now in
  ret (set_timestamps (e_date email) updated_at context).

Definition update_existing_context (context : ClientContext) (email : Email)
    (anthropic_key : option string) : State World ClientContext :=
  let* reply := send (FollowUp context email) in
  match reply with
  | Some (JObj analysis) =>
      let new_comm :=
        {| comm_email_id := e_id email;
           comm_date := e_date email;
           comm_subject := e_subject email;
           comm_topic := dict_get_default "topic" (JStr "Follow-up") analysis;
           comm_key_points := dict_get_default "key_points" (JArr []) analysis |} in
      let context := append_communication new_comm context in
      match py_iter (dict_get_default "new_action_items" (JArr []) analysis) with
      | Some items =>
          let* context := add_action_items items context in
          let* updated_at := datetime_now in
          ret (set_timestamps (e_date email) updated_at context)
      | None => basic_update context email
      end
  | _ => basic_update context email
  end.

(** [e.get('category') in ['new_client_inquiry', 'existing_client']] *)
Definition is_client_email (e : Email) : bool :=
  match e_category e with
  | Some c => String.eqb c "new_client_inquiry" || String.eqb c "existing_client"
  | None => false
  end.

(** The body of the loop of [manage_client_contexts]; the result tells
    whether a context was created ([true]) or updated ([false]). *)
Definition manage_one (anthropic_key : option string) (email : Email) : State World bool :=
  let sender_email := extract_sender_email (e_from email) in
  let* context := load_context sender_email in
  match context with
  | Some context =>
      let* context := update_existing_context context email anthropic_key in
      let* _ := save_context context in
      ret false
  | None =>
      let* context := create_new_context email anthropic_key in
      let* _ := save_context context in
      ret true
  end.

Fixpoint manage_loop (anthropic_key : option string) (client_emails : list Email)
    (contexts_created contexts_updated : nat) : State World (nat * nat) :=
  match client_emails with
  | [] => ret (contexts_created, contexts_updated)
  | email :: rest =>
      let* created := manage_one anthropic_key email in
      if created
      then manage_loop anthropic_key rest (S contexts_created) contexts_updated
      else manage_loop anthropic_key rest contexts_created (S contexts_updated)
  end.

(** [anthropic_key] is the [os.getenv] result. *)
Definition manage_client_contexts (anthropic_key : option string) (emails : list Email)
  : State World (exn + Summary) :=
  if negb (truthy anthropic_key)
  then ret (inl (ValueError "ANTHROPIC_API_KEY not found in .env file"))
  else
    let client_emails := List.filter is_client_email emails in
    let* counts := manage_loop anthropic_key client_emails 0 0 in
    ret (inr {| total_processed := length client_emails;
                contexts_created := fst counts;
                contexts_updated := snd counts |}).

End WithProvider.

(** *** Vocabulary of the properties *)

(** Every stored record sits under its own [client_email]; the stage
    establishes this for the files it writes. *)
Definition well_keyed (fs : gmap string ClientContext) : Prop :=
  forall k c, fs !! k = Some c -> client_email c = k.

(** A synthesis function sends one request and touches no file. *)
Definition only_asks (r : Request) (w w' : World) : Prop :=
  files w' = files w /\ requests w' = requests w ++ [r].

(** [recs] is a non-empty run of records that all describe [e]. *)
Definition records_of (e : Email) (recs : list Communication) : Prop :=
  recs <> [] /\
  Forall (fun r => comm_email_id r = e_id e /\ comm_date r = e_date e
                   /\ comm_subject r = e_subject e) recs.

(** The records one follow-up email adds, by the provider's answer. *)
Definition appended_records (reply : option json) (email : Email) : list Communication :=
  let basic := {| comm_email_id := e_id email; comm_date := e_date email;
                  comm_subject := e_subject email;
                  comm_topic := JStr "Follow-up"; comm_key_points := JArr [] |} in
  match reply with
  | Some (JObj analysis) =>
      {| comm_email_id := e_id email; comm_date := e_date email;
         comm_subject := e_subject email;
         comm_topic := dict_get_default "topic" (JStr "Follow-up") analysis;
         comm_key_points := dict_get_default "key_points" (JArr []) analysis |}
      :: match py_iter (dict_get_default "new_action_items" (JArr []) analysis) with
         | Some _ => []
         | None => [basic]
         end
  | _ => [basic]
  end.


(** Lexicographic order; on ISO-8601 timestamps of one time zone it is
    the chronological order. *)
Definition earlier (a b : string) : Prop := String.ltb a b = true.





(** *** Sample data *)

Definition mail (id date subject : string) : Email :=
  {| e_id := id; e_threadId := id; e_labelIds := Some ["INBOX"];
     e_snippet := subject; e_subject := subject;
     e_from := "Ann Lee <Ann@X.com>"; e_to := "me@x.com";
     e_date := date; e_body := "Hello"; e_attachments := [];
     e_category := Some "existing_client" |}.

Definition mail1 : Email := mail "m1" "2024-01-01T10:00:00" "Quote".
Definition mail2 : Email := mail "m2" "2024-01-02T10:00:00" "Re: Quote".
Definition mail3 : Email := mail "m3" "2024-01-03T10:00:00" "Re: Re: Quote".

(** A provider that is down, and one that answers every request with [j]. *)
Definition down : nat -> option json := fun _ => None.
Definition always (j : json) : nat -> option json := fun _ => Some j.

Definition clock : nat -> string := fun _ => "2024-02-01T00:00:00".

(** A well-formed answer to the follow-up prompt. *)
Definition follow_up_answer : json :=
  JObj [("topic", JStr "Quote"); ("key_points", JArr [JStr "price"]);
        ("new_action_items", JArr [])].

(** An answer whose [new_action_items] is [null]. *)
Definition null_items_answer : json :=
  JObj [("topic", JStr "Quote"); ("new_action_items", JNull)].

(** A record last touched on 15 March 2024. *)
Definition march_context : ClientContext :=
  {| client_email := "ann@x.com"; client_name := "Ann Lee";
     first_contact := "2023-12-01T08:00:00"; last_contact := "2024-03-15T09:00:00";
     project_summary := JStr "Website"; inquiry_type := JStr "Quote";
     status := "active"; communications := []; action_items := [];
     created_at := "2023-12-01T08:00:05"; updated_at := "2024-03-15T09:00:05" |}.





End Context.

(** ** extract_invoice_data.py *)

Module Extract.
Import Py.
Local Open Scope state_scope.

Definition fence : string := "```".
Definition json_fence : string := "```json".

(** [round(x, 2)]: to the nearest hundredth, ties to the even one. *)
Definition round2 (x : Q) : Q :=
  let a := (Qnum x * 100)%Z in
  let b := Zpos (Qden x) in
  let n := (a / b)%Z in
  let r := (a mod b)%Z in
  let n' :=
    match (2 * r ?= b)%Z with
    | Lt => n
    | Gt => (n + 1)%Z
    | Eq => if Z.even n then n else (n + 1)%Z
    end in
  Qred (n' # 100).

(** [a < b] on numbers *)
Definition Qltb (a b : Q) : bool := negb (Qle_bool b a).

(** What a request is built from; the prompt text is a function of it. *)
Record Request := {
  rq_api_key : option string;
  rq_model : string;
  rq_max_tokens : nat;
  rq_filename : string;
  rq_text_sample : string
}.

(** [files] maps a path to the JSON document written there. *)
Record World := {
  files : gmap string json;
  requests : list Request;
  ticks : nat
}.

Definition empty_world : World := {| files := ∅; requests := []; ticks := 0 |}.

Inductive exn := TypeError.

(** The five fields the prompt asks for. *)
Definition required_fields : list string :=
  ["date"; "sender"; "invoice_number"; "amount"; "currency"].

(** The markdown branch of [extract_invoice_data_with_llm]; [None] is
    the [IndexError] of [split(...)[1]]. *)
Definition unfence (json_text : string) : option string :=
  if contains json_fence json_text then
    match split_1 json_fence json_text with
    | Some inner => Some (strip (split_0 fence inner))
    | None => None
    end
  else if contains fence json_text then
    match split_1 fence json_text with
    | Some inner => Some (strip (split_0 fence inner))
    | None => None
    end
  else Some json_text.

(** [sum(1 for v in data.values() if v is not None)] *)
Definition fields_found (data : dict) : nat :=
  length (List.filter (fun v => negb (is_null v)) (dict_values data)).

Section WithProvider.

(** [complete n] is what the [n]-th request yields: [Some text] is the
    content of the first choice, [None] is any exception. *)
Variable complete : nat -> option string.

(** [json.loads]; [None] is [JSONDecodeError]. *)
Variable json_loads : string -> option json.

(** [now n] is the [n]-th reading of [datetime.now().isoformat()]. *)
Variable now : nat -> string.

Definition send (r : Request) : State World (option string) :=
  fun w => (complete (length (requests w)),
            {| files := files w; requests := requests w ++ [r]; ticks := ticks w |}).

Definition datetime_now : State World string :=
  fun w => (now (ticks w),
            {| files := files w; requests := requests w; ticks := S (ticks w) |}).

(** [with open(path, 'w') as f: json.dump(doc, f)].  The write is taken
    to succeed; [json.dump] raises on a text that utf-8 cannot encode, and
    a block in which it does ends there. *)
Definition write_json (path : string) (doc : json) : State World unit :=
  fun w => (tt, {| files := <[path := doc]> (files w);
                   requests := requests w; ticks := ticks w |}).

(** [None] is the [None] the function returns from its [except] branches. *)
Definition extract_invoice_data_with_llm (text filename : string) (api_key : option string)
  : State World (option dict) :=
  let text_sample :=
    if (4000 <? String.length text)%nat then take_str 4000 text else text in
  let* reply := send {| rq_api_key := api_key; rq_model := "gpt-4o-mini";
                        rq_max_tokens := 200; rq_filename := filename;
                        rq_text_sample := text_sample |} in
  match reply with
  | None => ret None
  | Some content =>
      let json_text := strip content in
      match unfence json_text with
      | None => ret None
      | Some json_text =>
          match json_loads json_text with
          | Some (JObj data) =>
              let fields_found := fields_found data in
              let confidence := (inject_Z (Z.of_nat fields_found) / 5)%Q in
              let data := dict_set "confidence" (JNum (round2 confidence)) data in
              ret (Some data)
          | _ => ret None
          end
      end
  end.

(** [inv.get('confidence', 0) < threshold]; [None] is the [TypeError] of
    a value that is not a number. *)
Definition low_confidence (threshold : Q) (inv : dict) : option bool :=
  match dict_get_default "confidence" (JNum 0%Q) inv with
  | JNum q => Some (Qltb q threshold)
  | JBool b => Some (Qltb (if b then 1%Q else 0%Q) threshold)
  | _ => None
  end.

(** The list comprehension of [generate_review_queue]. *)
Fixpoint review_queue_from (threshold : Q) (invoices_data review_queue : list dict)
  : option (list dict) :=
  match invoices_data with
  | [] => Some review_queue
  | inv :: rest =>
      match low_confidence threshold inv with
      | None => None
      | Some true => review_queue_from threshold rest (review_queue ++ [inv])
      | Some false => review_queue_from threshold rest review_queue
      end
  end.

Definition review_queue_path : string := ".tmp/invoice_review_queue.json".

Definition generate_review_queue (invoices_data : list dict) (threshold : Q)
  : State World (exn + unit) :=
  match review_queue_from threshold invoices_data [] with
  | None => ret (inl TypeError)
  | Some [] => ret (inr tt)
  | Some review_queue =>
      let* generated_at := datetime_now in
      let* _ :=
        write_json review_queue_path
          (JObj [ ("generated_at", JStr generated_at);
                  ("total_for_review", JNum (inject_Z (Z.of_nat (length review_queue))));
                  ("message",
                   JStr "These invoices have low confidence and should be manually reviewed");
                  ("invoices", JArr (map JObj review_queue)) ]) in
      ret (inr tt)
  end.

End WithProvider.

(** The default of the [threshold] argument. *)
Definition default_threshold : Q := 7 # 10.

(** *** Vendor names *)

(** The class [[a-z0-9]]. *)
Definition is_lower_alnum (c : ascii) : bool :=
  let n := nat_of_ascii c in
  ((97 <=? n)%nat && (n <=? 122)%nat) || ((48 <=? n)%nat && (n <=? 57)%nat).

(** [re.sub(r'[^a-z0-9]+', '_', s)]: every maximal run of other
    characters becomes one underscore; [in_run] tells whether the
    previous character belonged to such a run. *)
Fixpoint sub_runs (in_run : bool) (l : list ascii) : list ascii :=
  match l with
  | [] => []
  | c :: r =>
      if is_lower_alnum c then c :: sub_runs false r
      else if in_run then sub_runs true r
      else "_"%char :: sub_runs true r
  end.

Definition mappings : list (string * string) :=
  [ ("anthropic_pbc", "anthropic");
    ("google_workspace", "google");
    ("loom_inc", "loom");
    ("apify_technologies", "apify") ].

Definition normalize_sender_name (sender : option string) : string :=
  if negb (truthy sender) then "unknown"
  else
    let normalized :=
      string_of_list_ascii
        (sub_runs false (list_ascii_of_string (lower (default EmptyString sender)))) in
    let normalized := strip_chars (Ascii.eqb "_") normalized in
    dict_get_default normalized normalized mappings.

(** *** Processing a directory of PDFs *)

(** Truth value of a JSON value. *)
Definition json_truthy (j : json) : bool :=
  match j with
  | JNull => false
  | JBool b => b
  | JNum q => negb (Qeq_bool q 0)
  | JStr s => truthy (Some s)
  | JArr l => match l with [] => false | _ => true end
  | JObj d => match d with [] => false | _ => true end
  end.

(** One file found by [rglob]: its name, path, path relative to the
    invoice directory and stem, and what [extract_text_from_pdf] returns
    for it ([None] when the PDF library raises). *)
Record Pdf := {
  pdf_name : string;
  pdf_path : string;
  pdf_relative_path : string;
  pdf_stem : string;
  pdf_text : option string
}.

(** The JSON documents and requests of [World], and the text files. *)
Record Disk := {
  world : World;
  text_files : gmap string string
}.

Definition empty_disk : Disk := {| world := empty_world; text_files := ∅ |}.

Inductive error :=
| ValueError (msg : string)
| AttributeError
| TypeError_.

(** What [process_invoice_pdfs] returns: the bare [[]] of the early
    return, or the pair. *)
Inductive Processed :=
| NoPdfs
| Done (invoices_data errors : list dict).

(** [not text or len(text.strip()) < 50] *)
Definition insufficient (text : option string) : bool :=
  negb (truthy text)
  || (String.length (strip (default EmptyString text)) <? 50)%nat.

Definition error_record (pdf : Pdf) (msg : string) : dict :=
  [ ("filename", JStr (pdf_name pdf)); ("path", JStr (pdf_path pdf)); ("error", JStr msg) ].

Section Processing.

Variable complete : nat -> option string.
Variable json_loads : string -> option json.
Variable now : nat -> string.

Definition lift {A} (m : State World A) : State Disk A :=
  fun d => let '(a, w) := m (world d) in (a, {| world := w; text_files := text_files d |}).

(** [with open(text_file, 'w') as f: f.write(text)] *)
Definition write_text (path text : string) : State Disk unit :=
  fun d => (tt, {| world := world d; text_files := <[path := text]> (text_files d) |}).

(** The metadata and the normalized sender added to a result; [None]
    is the [AttributeError] of [sender.lower()] on a value that is not a
    string. *)
Definition add_metadata (pdf : Pdf) (processed_at : string) (invoice_data : dict)
  : option dict :=
  let invoice_data := dict_set "filename" (JStr (pdf_name pdf)) invoice_data in
  let invoice_data := dict_set "original_path" (JStr (pdf_path pdf)) invoice_data in
  let invoice_data := dict_set "relative_path" (JStr (pdf_relative_path pdf)) invoice_data in
  let invoice_data := dict_set "processed_at" (JStr processed_at) invoice_data in
  if json_truthy (dict_get_default "sender" JNull invoice_data) then
    match dict_get "sender" invoice_data with
    | Some (JStr sender) =>
        Some (dict_set "sender_normalized"
                (JStr (normalize_sender_name (Some sender))) invoice_data)
    | _ => None
    end
  else Some (dict_set "sender_normalized" (JStr "unknown") invoice_data).

(** The loop of [process_invoice_pdfs] on [invoices_data] and [errors]. *)
Fixpoint process_loop (api_key : option string) (pdf_files : list Pdf)
    (invoices_data errors : list dict) : State Disk (error + list dict * list dict) :=
  match pdf_files with
  | [] => ret (inr (invoices_data, errors))
  | pdf :: rest =>
      let text := pdf_text pdf in
      if insufficient text then
        process_loop api_key rest invoices_data
          (errors ++ [error_record pdf "Insufficient text extracted - may need OCR"])
      else
        let text := default EmptyString text in
        let* _ := write_text (".tmp/invoice_texts/" +:+ pdf_stem pdf +:+ ".txt") text in
        let* invoice_data :=
          lift (extract_invoice_data_with_llm complete json_loads text
                  (pdf_name pdf) api_key) in
        match invoice_data with
        | None | Some [] =>
            process_loop api_key rest invoices_data
              (errors ++ [error_record pdf "LLM extraction failed"])
        | Some invoice_data =>
            let* processed_at := lift (datetime_now now) in
            match add_metadata pdf processed_at invoice_data with
            | None => ret (inl AttributeError)
            | Some invoice_data =>
                process_loop api_key rest (invoices_data ++ [invoice_data]) errors
            end
        end
  end.

(** [api_key] is the [os.getenv] result, [pdf_files] the [rglob] result. *)
Definition process_invoice_pdfs (api_key : option string) (pdf_files : list Pdf)
  : State Disk (error + Processed) :=
  if negb (truthy api_key)
  then ret (inl (ValueError "OPENAI_API_KEY not found in .env file"))
  else
    match pdf_files with
    | [] => ret (inr NoPdfs)
    | _ =>
        let* r := process_loop api_key pdf_files [] [] in
        match r with
        | inl e => ret (inl e)
        | inr (invoices_data, errors) => ret (inr (Done invoices_data errors))
        end
    end.

Definition save_invoice_metadata (invoices_data : list dict) (output_path : string)
  : State Disk unit :=
  let* generated_at := lift (datetime_now now) in
  lift (write_json output_path
          (JObj [ ("generated_at", JStr generated_at);
                  ("total_invoices", JNum (inject_Z (Z.of_nat (length invoices_data))));
                  ("invoices", JArr (map JObj invoices_data)) ])).

Definition save_error_log (errors : list dict) (output_path : string) : State Disk unit :=
  let* generated_at := lift (datetime_now now) in
  lift (write_json output_path
          (JObj [ ("generated_at", JStr generated_at);
                  ("total_errors", JNum (inject_Z (Z.of_nat (length errors))));
                  ("errors", JArr (map JObj errors)) ])).

(** The [__main__] block; the result is the exception that ends it, if
    any.  Unpacking the bare [[]] into two names raises [ValueError]. *)
Definition main (api_key : option string) (pdf_files : list Pdf) : State Disk (option error) :=
  let* r := process_invoice_pdfs api_key pdf_files in
  match r with
  | inl e => ret (Some e)
  | inr NoPdfs => ret (Some (ValueError "not enough values to unpack (expected 2, got 0)"))
  | inr (Done invoices_data errors) =>
      let* _ := save_invoice_metadata invoices_data "invoices_metadata.json" in
      let* _ := save_error_log errors ".tmp/invoice_errors.json" in
      let* q := lift (generate_review_queue now invoices_data default_threshold) in
      match q with
      | inl _ => ret (Some TypeError_)
      | inr _ => ret None
      end
  end.

End Processing.

(** *** Vocabulary of the properties *)

(** The number behind [inv.get('confidence', 0)], when it is one. *)
Definition confidence_of (inv : dict) : option Q :=
  match dict_get_default "confidence" (JNum 0%Q) inv with
  | JNum q => Some q
  | JBool b => Some (if b then 1%Q else 0%Q)
  | _ => None
  end.

(** [inv] has a confidence and it is strictly below [threshold]. *)
Definition below (threshold : Q) (inv : dict) : bool :=
  match confidence_of inv with
  | Some q => Qltb q threshold
  | None => false
  end.

(** The count of the required fields that are present and not null. *)
Definition required_found (data : dict) : nat :=
  length (List.filter (fun k => match dict_get k data with
                                | Some v => negb (is_null v)
                                | None => false
                                end) required_fields).

(** [c] is no backtick. *)
Definition no_tick (c : ascii) : Prop := Ascii.eqb "`" c = false.


(** [c] may appear in a normalized vendor name. *)
Definition name_char (c : ascii) : bool := is_lower_alnum c || Ascii.eqb c "_".

(** [s] is made of lower-case letters, digits and underscores, and
    neither begins nor ends with an underscore. *)
Definition safe_name (s : string) : Prop :=
  let r := list_ascii_of_string s in
  Forall (fun c => name_char c = true) r
  /\ head r <> Some "_"%char
  /\ last r <> Some "_"%char.


(** *** Sample data *)

Definition clock : nat -> string := fun _ => "2024-02-01T00:00:00".
Definition always (text : string) : nat -> option string := fun _ => Some text.

(** The object of an answer that has only the vendor. *)
Definition sender_only : dict :=
  [ ("date", JNull); ("sender", JStr "Loom"); ("invoice_number", JNull);
    ("amount", JNull); ("currency", JNull) ].

(** The object of an answer with the five fields and a sixth key. *)
Definition six_keys : dict :=
  [ ("date", JStr "2024-01-31"); ("sender", JStr "Loom");
    ("invoice_number", JStr "4471"); ("amount", JNum (230 # 1));
    ("currency", JStr "USD"); ("notes", JStr "paid by card") ].

(** A parser that reads every text as [d]. *)
Definition reads_as (d : dict) : string -> option json := fun _ => Some (JObj d).

Definition invoice (name : string) (confidence : Q) : dict :=
  [ ("sender", JStr name); ("confidence", JNum confidence) ].




End Extract.

(** ** apply_gmail_labels.py *)

Module Labels.
Import Py.
Local Open Scope state_scope.

Definition LABEL_MAP : list (string * string) :=
  [ ("advertising", "Email-Assistant/Advertising");
    ("invoice", "Email-Assistant/Invoice");
    ("important_update", "Email-Assistant/Important-Update");
    ("new_client_inquiry", "Email-Assistant/New-Client");
    ("existing_client", "Email-Assistant/Existing-Client");
    ("other", "Email-Assistant/Other") ].

(** *** The mail service *)

Record Label := { label_name : string; label_id : string }.

(** The part of the mailbox the stage reads and writes: the labels of the
    account, and the label ids each message carries. *)
Record Gmail := {
  labels : list Label;
  message_labels : gmap string (list string)
}.

Inductive Call :=
| ListLabels
| CreateLabel (name : string)
| ModifyMessage (email_id label_id : string).

(** [calls] logs the requests sent to the service, oldest first. *)
Record World := {
  gmail : Gmail;
  calls : list Call
}.

Record LabelError := {
  err_email_id : string;
  err_subject : string;
  err_category : string
}.

Record Summary := {
  total_processed : nat;
  labels_applied : nat;
  errors_count : nat;
  by_category : list (string * nat)
}.

(** [addLabelIds] on a message. *)
Definition add_label (label_id : string) (ids : list string) : list string :=
  if existsb (String.eqb label_id) ids then ids else ids ++ [label_id].

Section WithService.

(** [responds n] tells whether the [n]-th request is answered ([true])
    or raises [HttpError] ([false]); [new_id n] is the id the service
    gives to a label created by the [n]-th request. *)
Variable responds : nat -> bool.
Variable new_id : nat -> string.

Definition log (c : Call) (w : World) : World :=
  {| gmail := gmail w; calls := calls w ++ [c] |}.

(** [service.users().labels().list(userId='me').execute()] *)
Definition labels_list : State World (option (list Label)) :=
  fun w =>
    if responds (length (calls w))
    then (Some (labels (gmail w)), log ListLabels w)
    else (None, log ListLabels w).

(** [service.users().labels().create(userId='me', body=...).execute()] *)
Definition labels_create (name : string) : State World (option Label) :=
  fun w =>
    let n := length (calls w) in
    if responds n
    then
      let created := {| label_name := name; label_id := new_id n |} in
      (Some created,
       {| gmail := {| labels := labels (gmail w) ++ [created];
                      message_labels := message_labels (gmail w) |};
          calls := calls w ++ [CreateLabel name] |})
    else (None, log (CreateLabel name) w).

(** [service.users().messages().modify(userId='me', id=..., body=...).execute()];
    the result tells whether the request was answered. *)
Definition messages_modify (email_id label_id : string) : State World bool :=
  fun w =>
    if responds (length (calls w))
    then
      (true,
       {| gmail :=
            {| labels := labels (gmail w);
               message_labels :=
                 <[email_id := add_label label_id
                                 (default [] (message_labels (gmail w) !! email_id))]>
                   (message_labels (gmail w)) |};
          calls := calls w ++ [ModifyMessage email_id label_id] |})
    else (false, log (ModifyMessage email_id label_id) w).

Definition get_or_create_label (label_path : string) : State World (option string) :=
  let* results := labels_list in
  match results with
  | None => ret None
  | Some labels =>
      match List.find (fun label => String.eqb (label_name label) label_path) labels with
      | Some label => ret (Some (label_id label))
      | None =>
          let* created_label := labels_create label_path in
          ret (label_id <$> created_label)
      end
  end.

Definition apply_label_to_email (email_id label_id : string) : State World bool :=
  messages_modify email_id label_id.

(** The loop that fills [label_ids]. *)
Fixpoint setup_labels (label_map : list (string * string)) (label_ids : list (string * string))
  : State World (list (string * string)) :=
  match label_map with
  | [] => ret label_ids
  | (category, label_path) :: rest =>
      let* label_id := get_or_create_label label_path in
      if truthy label_id
      then setup_labels rest (dict_set category (default EmptyString label_id) label_ids)
      else setup_labels rest label_ids
  end.

(** [any('Email-Assistant' in label for label in email.get('labelIds', []))] *)
Definition has_assistant_label (email : Email) : bool :=
  existsb (contains "Email-Assistant") (default [] (e_labelIds email)).

(** The body of the loop over the emails, on [label_counts] and [errors]. *)
Definition label_one (label_ids : list (string * string)) (email : Email)
    (acc : list (string * nat) * list LabelError)
  : State World (list (string * nat) * list LabelError) :=
  let '(label_counts, errors) := acc in
  let category := default "other" (e_category email) in
  if has_assistant_label email then ret acc
  else
    let label_id := dict_get category label_ids in
    if truthy label_id then
      let* success := apply_label_to_email (e_id email) (default EmptyString label_id) in
      if success
      then ret (dict_set category (S (dict_get_default category 0 label_counts)) label_counts,
                errors)
      else ret (label_counts,
                errors ++ [ {| err_email_id := e_id email;
                               err_subject := e_subject email;
                               err_category := category |} ])
    else ret acc.

Fixpoint label_loop (label_ids : list (string * string)) (emails : list Email)
    (acc : list (string * nat) * list LabelError)
  : State World (list (string * nat) * list LabelError) :=
  match emails with
  | [] => ret acc
  | email :: rest =>
      let* acc := label_one label_ids email acc in
      label_loop label_ids rest acc
  end.

Definition apply_gmail_labels (emails : list Email) : State World (Summary * list LabelError) :=
  let* label_ids := setup_labels LABEL_MAP [] in
  let label_counts := map (fun kv => (fst kv, 0)) LABEL_MAP in
  let* acc := label_loop label_ids emails (label_counts, []) in
  let '(label_counts, errors) := acc in
  ret ({| total_processed := length emails;
          labels_applied := list_sum (map snd label_counts);
          errors_count := length errors;
          by_category := label_counts |},
       errors).

End WithService.

(** *** Vocabulary of the properties *)

Definition is_modify (c : Call) : bool :=
  match c with
  | ModifyMessage _ _ => true
  | _ => false
  end.

(** The message mutations among the requests. *)
Definition mutations (cs : list Call) : list Call := List.filter is_modify cs.

(** From [w] to [w'] only requests that satisfy [P] were sent. *)
Definition sent_only (P : Call -> Prop) (w w' : World) : Prop :=
  exists extra, calls w' = calls w ++ extra /\ Forall P extra.

(** [c] is no mutation of a message. *)
Definition about_labels (c : Call) : Prop := is_modify c = false.

(** [c] is no mutation, or one for an email of [emails] that carries no
    label id with the name of the namespace. *)
Definition for_unlabelled (has_label : Email -> bool) (emails : list Email) (c : Call) : Prop :=
  forall id lid, c = ModifyMessage id lid ->
    exists e, In e emails /\ e_id e = id /\ has_label e = false.

(** [label_ids] has a usable id for [category]. *)
Definition has_id (label_ids : list (string * string)) (category : string) : Prop :=
  exists id, dict_get category label_ids = Some id /\ truthy (Some id) = true.

(** Every label of the mailbox has a non-empty id. *)
Definition ids_not_empty (g : Gmail) : Prop :=
  Forall (fun l => truthy (Some (label_id l)) = true) (labels g).

(** The email as [fetch_emails] builds it from the mailbox:
    ['labelIds': message.get('labelIds', [])]. *)
Definition refetch (g : Gmail) (e : Email) : Email :=
  {| e_id := e_id e; e_threadId := e_threadId e;
     e_labelIds := Some (default [] (message_labels g !! e_id e));
     e_snippet := e_snippet e; e_subject := e_subject e; e_from := e_from e;
     e_to := e_to e; e_date := e_date e; e_body := e_body e;
     e_attachments := e_attachments e; e_category := e_category e |}.

(** A later process talks to the same mailbox. *)
Definition restart (w : World) : World := {| gmail := gmail w; calls := [] |}.

(** *** Sample data *)

Definition invoice_mail : Email :=
  {| e_id := "m1"; e_threadId := "t1"; e_labelIds := Some ["INBOX"];
     e_snippet := "Invoice #4471"; e_subject := "Your invoice";
     e_from := "Billing <billing@vendor.com>"; e_to := "me@x.com";
     e_date := "Mon, 1 Jan 2024 10:00:00 +0000";
     e_body := "Invoice #4471, Total Due: $230.00";
     e_attachments := []; e_category := Some "invoice" |}.

(** A mailbox without any label of the system; [m1] sits in the inbox. *)
Definition fresh_mailbox : World :=
  {| gmail := {| labels := []; message_labels := {[ "m1" := ["INBOX"] ]} |};
     calls := [] |}.

(** The service answers every request. *)
Definition up : nat -> bool := fun _ => true.

(** The service answers every request but the [n]-th. *)
Definition fails_at (n : nat) : nat -> bool := fun m => negb (Nat.eqb m n).

(** Ids as the service hands them out: [Label_A], [Label_B], ... *)
Definition label_ids_of_service : nat -> string :=
  fun n => "Label_" +:+ String (ascii_of_nat (65 + n)) EmptyString.

(** An email that carries a label id with the name of the namespace. *)
Definition tagged_mail : Email :=
  {| e_id := "m2"; e_threadId := "t2";
     e_labelIds := Some ["INBOX"; "Email-Assistant/Invoice"];
     e_snippet := "Invoice #4472"; e_subject := "Another invoice";
     e_from := "Billing <billing@vendor.com>"; e_to := "me@x.com";
     e_date := "Tue, 2 Jan 2024 10:00:00 +0000";
     e_body := "Invoice #4472"; e_attachments := [];
     e_category := Some "invoice" |}.

End Labels.

(** ** organize_emails.py *)

Module Orchestrate.
Import Py.
Local Open Scope state_scope.

(** What [json.load] makes of a file: the document it holds, or
    [JSONDecodeError]. *)
Inductive File := Parsed (doc : json) | Unparsable.

(** The part of the file system the script reads and writes: the files
    by path, and whether the directory [.tmp] exists. *)
Record Disk := {
  files : gmap string File;
  tmp_dir : bool
}.

(** A child process: [sys.executable script_name args]. *)
Record Run := {
  script_name : string;
  script_args : list string
}.

(** [launched] logs the child processes, oldest first. *)
Record System := {
  disk : Disk;
  launched : list Run;
  ticks : nat
}.

Inductive exn :=
| SystemExit (code : Z)
| JSONDecodeError
| AttributeError
| TypeError
| FileNotFoundError.

Definition categorization_path : string := ".tmp/categorization_results.json".
Definition invoice_log_path : string := ".tmp/invoice_log.json".
Definition dashboard_path : string := ".tmp/dashboard_invoices.json".
Definition drafts_path : string := ".tmp/draft_responses_summary.json".
Definition report_path : string := ".tmp/processing_report.json".

Definition zero : json := JNum (inject_Z 0).

(** [doc.get(key, dflt)] on what [json.load] returned: only a [dict] has
    [get]. *)
Definition get (key : string) (dflt : json) (doc : json) : exn + json :=
  match doc with
  | JObj d => inr (dict_get_default key dflt d)
  | _ => inl AttributeError
  end.

(** One block of [generate_final_report]: when [path] exists, load it and
    copy the listed fields, [(key of the report, key of the file,
    default)], into the report, in order. *)
Fixpoint copy_fields (fields : list (string * string * json)) (doc : json) (report : dict)
  : exn + dict :=
  match fields with
  | [] => inr report
  | (key, source, dflt) :: rest =>
      match get source dflt doc with
      | inl e => inl e
      | inr v => copy_fields rest doc (dict_set key v report)
      end
  end.

Definition load_block (path : string) (fields : list (string * string * json))
    (d : Disk) (report : dict) : exn + dict :=
  match files d !! path with
  | None => inr report
  | Some Unparsable => inl JSONDecodeError
  | Some (Parsed doc) => copy_fields fields doc report
  end.

(** [x > 0] for a value read from JSON. *)
Definition gt_zero (v : json) : exn + bool :=
  match v with
  | JNum q => inr (negb (Qle_bool q 0))
  | JBool b => inr b
  | _ => inl TypeError
  end.

(** [print_final_summary]: the console is not modelled, only whether the
    function raises. *)
Definition print_final_summary (report : dict) : option exn :=
  let breakdown :=
    match dict_get "category_counts" report with
    | Some (JObj _) | None => None
    | Some _ => Some AttributeError
    end in
  match breakdown with
  | Some e => Some e
  | None =>
      match dict_get "invoices_downloaded" report with
      | Some _ =>
          match gt_zero (dict_get_default "dashboard_invoices" zero report) with
          | inl e => Some e
          | inr _ => None
          end
      | None => None
      end
  end.

Section WithProcesses.

(** [subprocess_run n cmd d] is what the [n]-th child process makes of
    the disk [d], and its return code; [now n] is the [n]-th reading of
    the clock. *)
Variable subprocess_run : nat -> Run -> Disk -> Disk * Z.
Variable now : nat -> string.

Definition run_script (script_name : string) (args : list string) : State System bool :=
  fun s =>
    let cmd := {| script_name := script_name; script_args := args |} in
    let result := subprocess_run (length (launched s)) cmd (disk s) in
    let s' := {| disk := fst result; launched := launched s ++ [cmd]; ticks := ticks s |} in
    if negb (Z.eqb (snd result) 0) then (false, s') else (true, s').

Definition datetime_now : State System string :=
  fun s => (now (ticks s),
            {| disk := disk s; launched := launched s; ticks := S (ticks s) |}).

(** [with open(path, 'w') as f: json.dump(doc, f)], which needs the
    directory of [path]. *)
Definition write_report (report : dict) : State System (exn + dict) :=
  fun s =>
    if tmp_dir (disk s)
    then (inr report,
          {| disk := {| files := <[report_path := Parsed (JObj report)]> (files (disk s));
                        tmp_dir := true |};
             launched := launched s; ticks := ticks s |})
    else (inl FileNotFoundError, s).

Definition generate_final_report : State System (exn + dict) :=
  let* completed_at := datetime_now in
  let report := [ ("workflow_completed_at", JStr completed_at);
                  ("status", JStr "success") ] in
  fun s =>
    match load_block categorization_path
            [ ("total_emails", "total_emails", zero);
              ("category_counts", "category_counts", JObj []) ] (disk s) report with
    | inl e => (inl e, s)
    | inr report =>
    match load_block invoice_log_path
            [ ("invoices_downloaded", "total_invoices", zero) ] (disk s) report with
    | inl e => (inl e, s)
    | inr report =>
    match load_block dashboard_path
            [ ("dashboard_invoices", "total_dashboard_invoices", zero) ] (disk s) report with
    | inl e => (inl e, s)
    | inr report =>
    match load_block drafts_path
            [ ("drafts_generated", "total_drafts", zero);
              ("new_client_drafts", "new_clients", zero);
              ("existing_client_drafts", "existing_clients", zero) ] (disk s) report with
    | inl e => (inl e, s)
    | inr report => write_report report s
    end end end end.

(** [main]: [None] when it returns, [Some e] when it ends by raising [e]
    ([sys.exit(1)] raises [SystemExit 1]). *)
Definition main (argv : list string) : State System (option exn) :=
  match argv with
  | _ :: start_date :: end_date :: rest =>
      let status := match rest with status :: _ => status | [] => "all" end in
      let* success := run_script "execution/fetch_emails.py" [start_date; end_date; status] in
      if negb success then ret (Some (SystemExit 1)) else
      let* success := run_script "execution/categorize_emails.py" [] in
      if negb success then ret (Some (SystemExit 1)) else
      let* _ := run_script "execution/process_invoices.py" [] in
      let* _ := run_script "execution/manage_client_context.py" [] in
      let* _ := run_script "execution/generate_draft_responses.py" [] in
      let* _ := run_script "execution/apply_gmail_labels.py" [] in
      let* report := generate_final_report in
      match report with
      | inl e => ret (Some e)
      | inr report => ret (print_final_summary report)
      end
  | _ => ret (Some (SystemExit 1))
  end.

End WithProcesses.

(** *** Vocabulary of the statements *)

(** The six steps of the workflow for a command line, in order. *)
Definition steps (argv : list string) : list Run :=
  [ {| script_name := "execution/fetch_emails.py";
       script_args := [ nth 1 argv EmptyString; nth 2 argv EmptyString;
                        nth 3 argv "all" ] |};
    {| script_name := "execution/categorize_emails.py"; script_args := [] |};
    {| script_name := "execution/process_invoices.py"; script_args := [] |};
    {| script_name := "execution/manage_client_context.py"; script_args := [] |};
    {| script_name := "execution/generate_draft_responses.py"; script_args := [] |};
    {| script_name := "execution/apply_gmail_labels.py"; script_args := [] |} ].

(** The two steps whose failure stops the workflow. *)
Definition is_required (cmd : Run) : bool :=
  String.eqb (script_name cmd) "execution/fetch_emails.py"
  || String.eqb (script_name cmd) "execution/categorize_emails.py".

(** The report file says the workflow succeeded. *)
Definition reports_success (d : Disk) : Prop :=
  exists report, files d !! report_path = Some (Parsed (JObj report))
                 /\ dict_get "status" report = Some (JStr "success").

(** *** Sample data *)

Definition clock : nat -> string := fun _ => "2024-02-01T00:00:00".

Definition empty_system : System :=
  {| disk := {| files := ∅; tmp_dir := true |}; launched := []; ticks := 0 |}.

Definition command_line : list string :=
  [ "organize_emails.py"; "2024-01-01"; "2024-01-31" ].

(** Child processes that leave the disk alone; the required steps return
    0, the others 1. *)
Definition only_required_succeed : nat -> Run -> Disk -> Disk * Z :=
  fun _ cmd d => (d, if is_required cmd then 0%Z else 1%Z).

(** Child processes of which the [n]-th fails. *)
Definition fails_at (n : nat) : nat -> Run -> Disk -> Disk * Z :=
  fun m _ d => (d, if Nat.eqb m n then 2%Z else 0%Z).

(** A disk on which the categorization stage has saved two emails. *)
Definition categorized_system : System :=
  {| disk := {| files := {[ categorization_path :=
                              Parsed (Categorize.categorization_results
                                        [Categorize.sample_email; Categorize.sample_email]) ]};
                tmp_dir := true |};
     launched := []; ticks := 0 |}.

End Orchestrate.

(** * Properties *)

(** ** Strings *)

Module PyFacts.
Import Py.

Lemma list_ascii_of_string_app (a b : string) :
  list_ascii_of_string (a +:+ b) = list_ascii_of_string a ++ list_ascii_of_string b.
Proof. induction a as [|c a IH]; simpl; [reflexivity | now rewrite IH]. Qed.

Lemma list_ascii_of_lower (s : string) :
  list_ascii_of_string (lower s) = map lower_char (list_ascii_of_string s).
Proof. unfold lower. apply list_ascii_of_string_of_list_ascii. Qed.

Lemma lower_of_list (l : list ascii) :
  lower (string_of_list_ascii l) = string_of_list_ascii (map lower_char l).
Proof. unfold lower. now rewrite list_ascii_of_string_of_list_ascii. Qed.

Lemma is_space_lower_char (c : ascii) : is_space (lower_char c) = is_space c.
Proof. destruct c as [[] [] [] [] [] [] [] []]; reflexivity. Qed.

Lemma lower_char_idem (c : ascii) : lower_char (lower_char c) = lower_char c.
Proof. destruct c as [[] [] [] [] [] [] [] []]; reflexivity. Qed.

Lemma drop_while_map (p : ascii -> bool) (f : ascii -> ascii) (l : list ascii) :
  (forall c, p (f c) = p c) ->
  drop_while p (map f l) = map f (drop_while p l).
Proof.
  intros Hp. induction l as [|c l IH]; simpl; [reflexivity|].
  rewrite Hp. now destruct (p c).
Qed.

Lemma lower_idem (s : string) : lower (lower s) = lower s.
Proof.
  unfold lower at 1. rewrite list_ascii_of_lower, map_map. unfold lower.
  f_equal. apply map_ext. intros c. apply lower_char_idem.
Qed.

(** Stripping blanks and lowering letters commute. *)
Lemma strip_lower (s : string) : strip (lower s) = lower (strip s).
Proof.
  unfold strip, strip_chars. rewrite list_ascii_of_lower.
  unfold lower. rewrite list_ascii_of_string_of_list_ascii.
  f_equal.
  rewrite (drop_while_map _ _ _ is_space_lower_char), <- map_rev.
  rewrite (drop_while_map _ _ _ is_space_lower_char), <- map_rev.
  reflexivity.
Qed.

Lemma drop_while_split (p : ascii -> bool) (l : list ascii) :
  exists z, l = z ++ drop_while p l.
Proof.
  induction l as [|c l (z & IH)]; simpl.
  - now exists [].
  - destruct (p c); [|now exists []]. exists (c :: z). simpl. now rewrite <- IH.
Qed.

Lemma drop_while_head (p : ascii -> bool) (l : list ascii) (c : ascii) :
  head (drop_while p l) = Some c -> p c = false.
Proof.
  induction l as [|a l IH]; simpl; [discriminate|].
  destruct (p a) eqn:E; [exact IH|]. simpl. intros H. inversion H. now subst.
Qed.

Lemma drop_while_Forall (P : ascii -> Prop) (p : ascii -> bool) (l : list ascii) :
  Forall P l -> Forall P (drop_while p l).
Proof.
  induction 1 as [|c l Hc Hl IH]; simpl; [constructor|].
  destruct (p c); [exact IH | now constructor].
Qed.

(** What [strip_chars] returns has the characters of the argument, and
    neither begins nor ends with a stripped character. *)
Lemma strip_chars_spec (P : ascii -> Prop) (p : ascii -> bool) (s : string) :
  Forall P (list_ascii_of_string s) ->
  let r := list_ascii_of_string (strip_chars p s) in
  Forall P r
  /\ (forall c, head r = Some c -> p c = false)
  /\ (forall c, last r = Some c -> p c = false).
Proof.
  intros HP. unfold strip_chars. cbv zeta. rewrite list_ascii_of_string_of_list_ascii.
  set (Y := drop_while p (list_ascii_of_string s)).
  set (X := drop_while p (rev Y)).
  split; [|split].
  - apply Forall_rev. apply drop_while_Forall. apply Forall_rev.
    now apply drop_while_Forall.
  - intros c Hc. destruct (drop_while_split p (rev Y)) as (z & Hz). fold X in Hz.
    assert (HY : Y = rev X ++ rev z).
    { rewrite <- (rev_involutive Y), Hz, rev_app_distr. reflexivity. }
    apply (drop_while_head p (list_ascii_of_string s)). fold Y. rewrite HY.
    destruct (rev X); [discriminate Hc | exact Hc].
  - intros c Hc. apply (drop_while_head p (rev Y)). fold X.
    rewrite rev_alt in Hc. change (rev_append X []) with (reverse X) in Hc.
    now rewrite last_reverse in Hc.
Qed.

End PyFacts.

(** ** Dictionaries *)

Lemma dict_get_set_eq {V} (k : string) (v : V) (d : list (string * V)) :
  dict_get k (dict_set k v d) = Some v.
Proof.
  induction d as [|[k' v'] r IH]; simpl.
  - now rewrite String.eqb_refl.
  - destruct (String.eqb k k') eqn:E; simpl.
    + now rewrite String.eqb_refl.
    + now rewrite E.
Qed.

Lemma dict_get_set_ne {V} (k k' : string) (v : V) (d : list (string * V)) :
  k <> k' -> dict_get k' (dict_set k v d) = dict_get k' d.
Proof.
  intros Hne. induction d as [|[k0 v0] r IH]; simpl.
  - apply String.eqb_neq in Hne. rewrite String.eqb_sym in Hne. now rewrite Hne.
  - destruct (String.eqb k k0) eqn:E; simpl.
    + apply String.eqb_eq in E. subst k0.
      apply String.eqb_neq in Hne. rewrite String.eqb_sym in Hne. now rewrite Hne.
    + destruct (String.eqb k' k0); [reflexivity | exact IH].
Qed.

Lemma dict_get_In {V} (k : string) (v : V) (d : list (string * V)) :
  dict_get k d = Some v -> In (k, v) d.
Proof.
  induction d as [|[k' v'] r IH]; simpl; [discriminate|].
  destruct (String.eqb k k') eqn:E.
  - apply String.eqb_eq in E. subst k'. intros H. inversion H. now left.
  - intros H. right. now apply IH.
Qed.

Lemma dict_get_None {V} (k : string) (d : list (string * V)) :
  dict_get k d = None <-> ~ In k (map fst d).
Proof.
  induction d as [|[k' v'] r IH]; simpl; [tauto|].
  destruct (String.eqb k k') eqn:E.
  - apply String.eqb_eq in E. subst k'. split; [discriminate | tauto].
  - apply String.eqb_neq in E. rewrite IH. split.
    + intros H [Heq | Hin]; [congruence | tauto].
    + tauto.
Qed.

Lemma dict_set_keys {V} (k : string) (v : V) (d : list (string * V)) :
  map fst (dict_set k v d)
  = match dict_get k d with
    | Some _ => map fst d
    | None => map fst d ++ [k]
    end.
Proof.
  induction d as [|[k' v'] r IH]; simpl; [reflexivity|].
  destruct (String.eqb k k') eqn:E; simpl.
  - apply String.eqb_eq in E. now subst k'.
  - rewrite IH. now destruct (dict_get k r).
Qed.

Lemma dict_set_NoDup {V} (k : string) (v : V) (d : list (string * V)) :
  NoDup (map fst d) -> NoDup (map fst (dict_set k v d)).
Proof.
  intros Hnd. rewrite dict_set_keys. destruct (dict_get k d) eqn:E; [assumption|].
  apply dict_get_None in E. apply NoDup_app. repeat split.
  - assumption.
  - intros x Hx Hx'. apply list_elem_of_In in Hx, Hx'. destruct Hx' as [<-|[]]. tauto.
  - repeat constructor. intros H. apply list_elem_of_In in H. destruct H.
Qed.

(** Counting one more under [k] adds one to the total. *)
Lemma dict_increment_sum (k : string) (d : list (string * nat)) :
  list_sum (map snd (dict_set k (dict_get_default k 0 d + 1) d))
  = S (list_sum (map snd d)).
Proof.
  unfold dict_get_default. induction d as [|[k' n] r IH]; simpl; [reflexivity|].
  destruct (String.eqb k k') eqn:E; simpl; [lia|].
  rewrite IH. lia.
Qed.

Lemma dict_increment_sum_S (k : string) (d : list (string * nat)) :
  list_sum (map snd (dict_set k (S (dict_get_default k 0 d)) d))
  = S (list_sum (map snd d)).
Proof. rewrite <- (Nat.add_1_r (dict_get_default k 0 d)). apply dict_increment_sum. Qed.

(** ** Classification *)

Module CategorizeFacts.
Import Py Categorize.

Example validated_invoice : validated (" Invoice" +:+ nl) = "invoice".
Proof. reflexivity. Qed.

Example validated_spam : validated "spam" = "other".
Proof. reflexivity. Qed.

Example categorize_sample_fallback :
  categorize_emails (first_fails "INVOICE") (Some "ka") (Some "ko") [sample_email] false []
  = (inr [set_category "invoice" sample_email],
     [request_of OpenAI (Some "ko") sample_email;
      request_of Anthropic (Some "ka") sample_email]).
Proof. reflexivity. Qed.

Example categorize_sample_no_keys :
  categorize_emails down None (Some EmptyString) [sample_email] true []
  = (inl (ValueError "No valid API keys found in .env file"), []).
Proof. reflexivity. Qed.

(** *** Equations of the stage *)

Lemma in_CATEGORIES_In (c : string) :
  in_CATEGORIES c = true <-> In c (map fst CATEGORIES).
Proof.
  unfold in_CATEGORIES. rewrite existsb_exists. split.
  - intros (x & Hin & Heq). apply String.eqb_eq in Heq. now subst.
  - intros Hin. exists c. split; [assumption | apply String.eqb_refl].
Qed.

Lemma validated_in (text : string) : In (validated text) (map fst CATEGORIES).
Proof.
  unfold validated. destruct (in_CATEGORIES (lower (strip text))) eqn:E.
  - now apply in_CATEGORIES_In.
  - simpl. tauto.
Qed.

Lemma other_in : In "other" (map fst CATEGORIES).
Proof. simpl. tauto. Qed.

Lemma categorize_with_anthropic_eq complete (e : Email) (k : option string) (log : Log) :
  categorize_with_anthropic complete e k log
  = (validated <$> complete (length log), log ++ [request_of Anthropic k e]).
Proof.
  unfold categorize_with_anthropic, bind, send, ret, validated. simpl.
  now destruct (complete (length log)).
Qed.

Lemma categorize_with_openai_eq complete (e : Email) (k : option string) (log : Log) :
  categorize_with_openai complete e k log
  = (validated <$> complete (length log), log ++ [request_of OpenAI k e]).
Proof.
  unfold categorize_with_openai, bind, send, ret, validated. simpl.
  now destruct (complete (length log)).
Qed.

(** What one turn of the loop does, by cases on the two replies. *)
Lemma categorize_one_eq complete (ua : bool) (ak ok : option string) (e : Email) (log : Log) :
  categorize_one complete ua ak ok e log =
  let p := request_of (primary ua) (key_of (primary ua) ak ok) e in
  let s := request_of (secondary ua) (key_of (secondary ua) ak ok) e in
  match complete (length log) with
  | Some t => (set_category (validated t) e, log ++ [p])
  | None =>
      if truthy (key_of (secondary ua) ak ok)
      then (set_category (default "other" (validated <$> complete (S (length log)))) e,
            log ++ [p; s])
      else (set_category "other" e, log ++ [p])
  end.
Proof.
  unfold categorize_one, bind.
  destruct ua; simpl.
  - rewrite categorize_with_anthropic_eq.
    destruct (complete (length log)) as [t|] eqn:E1; simpl; [reflexivity|].
    destruct (truthy ok); simpl; [|reflexivity].
    rewrite categorize_with_openai_eq, length_app, Nat.add_1_r, <- app_assoc. simpl.
    now destruct (complete (S (length log))).
  - rewrite categorize_with_openai_eq.
    destruct (complete (length log)) as [t|] eqn:E1; simpl; [reflexivity|].
    destruct (truthy ak); simpl; [|reflexivity].
    rewrite categorize_with_anthropic_eq, length_app, Nat.add_1_r, <- app_assoc. simpl.
    now destruct (complete (S (length log))).
Qed.

Lemma categorize_one_classified complete ua ak ok (e : Email) (log : Log) :
  classified e (fst (categorize_one complete ua ak ok e log)).
Proof.
  rewrite categorize_one_eq. simpl.
  destruct (complete (length log)) as [t|].
  - exists (validated t). split; [reflexivity | apply validated_in].
  - destruct (truthy _).
    + destruct (complete (S (length log))) as [t|]; simpl.
      * exists (validated t). split; [reflexivity | apply validated_in].
      * exists "other". split; [reflexivity | apply other_in].
    + exists "other". split; [reflexivity | apply other_in].
Qed.

Lemma categorize_loop_classified complete ua ak ok (emails : list Email) :
  forall (acc : list Email) (log : Log),
  exists out, fst (categorize_loop complete ua ak ok emails acc log) = acc ++ out
              /\ Forall2 classified emails out.
Proof.
  induction emails as [|e rest IH]; intros acc log; simpl.
  - exists []. split; [now rewrite app_nil_r | constructor].
  - unfold bind.
    pose proof (categorize_one_classified complete ua ak ok e log) as Hc.
    destruct (categorize_one complete ua ak ok e log) as [e' log1]. simpl in Hc.
    destruct (IH (acc ++ [e']) log1) as (out & Hout & Hall).
    exists (e' :: out). split.
    + rewrite Hout, <- app_assoc. reflexivity.
    + now constructor.
Qed.

Lemma categorize_emails_eq complete (ak ok : option string) (emails : list Email)
    (ua : bool) (log : Log) :
  usable_keys ak ok ua = true ->
  categorize_emails complete ak ok emails ua log
  = let '(out, log') := categorize_loop complete (ua && truthy ak) ak ok emails [] log in
    (inr out, log').
Proof.
  unfold usable_keys, categorize_emails, bind, ret.
  destruct ua, (truthy ak), (truthy ok); simpl; intros H; try discriminate;
    now destruct (categorize_loop _ _ _ _ _ _ _).
Qed.

(** Without a key for the secondary provider the whole loop sends one
    request per email, all to the primary provider. *)
Lemma categorize_loop_one_request_each complete (ua : bool) (ak ok : option string)
    (emails : list Email) :
  truthy (key_of (secondary ua) ak ok) = false ->
  forall (acc : list Email) (log : Log),
    snd (categorize_loop complete ua ak ok emails acc log)
    = log ++ map (request_of (primary ua) (key_of (primary ua) ak ok)) emails.
Proof.
  intros Hkey. induction emails as [|e rest IH]; intros acc log; simpl.
  - now rewrite app_nil_r.
  - unfold bind. rewrite categorize_one_eq. simpl. rewrite Hkey.
    destruct (complete (length log)); rewrite IH, <- app_assoc; reflexivity.
Qed.

(** C6. Whenever a usable key is configured the classification stage
    returns, and every email it returns is the input email at the same
    position with a [category] added that belongs to the six-member
    enumeration [CATEGORIES]: this holds whatever the providers answer
    (failure of one or both, an unknown token from either). *)
Theorem categorize_emails_category_in_enumeration
    complete (ak ok : option string) (emails : list Email) (ua : bool) (log : Log) :
  usable_keys ak ok ua = true ->
  exists out log',
    categorize_emails complete ak ok emails ua log = (inr out, log')
    /\ Forall2 classified emails out.
Proof.
  intros Hk. rewrite (categorize_emails_eq _ _ _ _ _ _ Hk).
  destruct (categorize_loop_classified complete (ua && truthy ak) ak ok emails [] log)
    as (out & Hout & Hall).
  destruct (categorize_loop _ _ _ _ _ _ _) as [out' log']. simpl in Hout. subst out'.
  now exists out, log'.
Qed.

Lemma categorize_emails_category_in_enumeration_witness :
  usable_keys (Some "ka") (Some "ko") false = true /\
  exists out log',
    categorize_emails (first_fails "spam") (Some "ka") (Some "ko")
      [sample_email; sample_email] false [] = (inr out, log')
    /\ Forall2 classified [sample_email; sample_email] out.
Proof.
  split; [reflexivity|].
  apply categorize_emails_category_in_enumeration. reflexivity.
Defined.

(** C3 does not hold as stated: here both keys are configured and the
    primary provider (OpenAI) answers with the token [spam], which is not
    in the enumeration.  The email is marked [other] after that single
    request; the secondary provider (Anthropic) is never called. *)
Lemma invalid_token_triggers_no_fallback :
  in_CATEGORIES (lower (strip "spam")) = false /\
  truthy (Some "ka") = true /\
  let '(result, log) :=
    categorize_emails (always "spam") (Some "ka") (Some "ko") [sample_email] false [] in
  result = inr [set_category "other" sample_email]
  /\ map rq_provider log = [OpenAI].
Proof. repeat split. Qed.

(** C3, amended.  In one turn of the classification loop:
    - if the request to the primary provider fails and the key of the
      secondary provider is configured, the secondary provider is called
      next, with the same prompt, and the email gets the secondary's token
      when it is in the enumeration and [other] when the secondary fails
      too or answers with an unknown token;
    - if the primary provider answers, no second request is made: the
      email gets the primary's token when it is in the enumeration and
      [other] at once when it is not. *)
Theorem fallback_on_primary_failure
    complete (ua : bool) (ak ok : option string) (e : Email) (log : Log) :
  let p := request_of (primary ua) (key_of (primary ua) ak ok) e in
  let s := request_of (secondary ua) (key_of (secondary ua) ak ok) e in
  (complete (length log) = None ->
   truthy (key_of (secondary ua) ak ok) = true ->
   categorize_one complete ua ak ok e log
   = (set_category
        (match complete (S (length log)) with
         | Some t => if in_CATEGORIES (lower (strip t)) then lower (strip t) else "other"
         | None => "other"
         end) e,
      log ++ [p; s])
   /\ rq_prompt s = rq_prompt p)
  /\
  (forall t, complete (length log) = Some t ->
   categorize_one complete ua ak ok e log
   = (set_category (if in_CATEGORIES (lower (strip t)) then lower (strip t) else "other") e,
      log ++ [p])).
Proof.
  intros p s. split.
  - intros Hfail Hkey. rewrite categorize_one_eq. simpl.
    rewrite Hfail, Hkey. split.
    + now destruct (complete (S (length log))).
    + subst p s. now destruct ua.
  - intros t Hans. rewrite categorize_one_eq. simpl. now rewrite Hans.
Qed.

Lemma fallback_on_primary_failure_witness :
  (first_fails "Invoice" (length (@nil Request)) = None /\
   truthy (key_of (secondary false) (Some "ka") (Some "ko")) = true /\
   categorize_one (first_fails "Invoice") false (Some "ka") (Some "ko") sample_email []
   = (set_category "invoice" sample_email,
      [request_of OpenAI (Some "ko") sample_email;
       request_of Anthropic (Some "ka") sample_email]))
  /\
  (always "spam" (length (@nil Request)) = Some "spam" /\
   categorize_one (always "spam") false (Some "ka") (Some "ko") sample_email []
   = (set_category "other" sample_email, [request_of OpenAI (Some "ko") sample_email])).
Proof.
  split.
  - split; [reflexivity | split; [reflexivity|]].
    apply (proj1 (fallback_on_primary_failure (first_fails "Invoice") false
                    (Some "ka") (Some "ko") sample_email [])); reflexivity.
  - split; [reflexivity|].
    apply (proj2 (fallback_on_primary_failure (always "spam") false
                    (Some "ka") (Some "ko") sample_email []) "spam"); reflexivity.
Defined.

(** C9. When the key of the secondary provider is not configured, one
    turn of the classification loop issues exactly one request, the one to
    the primary provider; if that request fails, the email is marked
    [other] without any fallback call. *)
Theorem no_fallback_without_secondary_key
    complete (ua : bool) (ak ok : option string) (e : Email) (log : Log) :
  truthy (key_of (secondary ua) ak ok) = false ->
  snd (categorize_one complete ua ak ok e log)
  = log ++ [request_of (primary ua) (key_of (primary ua) ak ok) e]
  /\ (complete (length log) = None ->
      fst (categorize_one complete ua ak ok e log) = set_category "other" e).
Proof.
  intros Hkey. rewrite categorize_one_eq. simpl. rewrite Hkey.
  destruct (complete (length log)); split; try reflexivity; discriminate.
Qed.

Lemma no_fallback_without_secondary_key_witness :
  truthy (key_of (secondary false) None (Some "ko")) = false /\
  down (length (@nil Request)) = None /\
  snd (categorize_one down false None (Some "ko") sample_email [])
  = [request_of OpenAI (Some "ko") sample_email]
  /\ fst (categorize_one down false None (Some "ko") sample_email [])
     = set_category "other" sample_email.
Proof.
  split; [reflexivity | split; [reflexivity|]].
  destruct (no_fallback_without_secondary_key down false None (Some "ko")
              sample_email [] eq_refl) as [Hlog Hcat].
  split; [exact Hlog | exact (Hcat eq_refl)].
Defined.

(** *** Keys, requests and counts *)

(** X1. Without a usable key (no OpenAI key, and no Anthropic key or
    Anthropic not requested) [categorize_emails] raises [ValueError]
    before any request is sent, whatever the emails are. *)
Theorem categorize_emails_raises_without_keys
    complete (ak ok : option string) (emails : list Email) (ua : bool) (log : Log) :
  usable_keys ak ok ua = false ->
  categorize_emails complete ak ok emails ua log
  = (inl (ValueError "No valid API keys found in .env file"), log).
Proof.
  unfold usable_keys, categorize_emails.
  destruct ua, (truthy ak), (truthy ok); simpl; intros H; try discriminate; reflexivity.
Qed.

Lemma categorize_emails_raises_without_keys_witness :
  usable_keys None (Some EmptyString) true = false /\
  categorize_emails (always "invoice") None (Some EmptyString) [sample_email] true []
  = (inl (ValueError "No valid API keys found in .env file"), []).
Proof.
  split; [reflexivity|].
  apply categorize_emails_raises_without_keys. reflexivity.
Defined.

Lemma rq_api_key_request_of (p : Provider) (key : option string) (e : Email) :
  rq_api_key (request_of p key e) = key.
Proof. now destruct p. Qed.

Lemma categorize_loop_requests complete (ua : bool) (ak ok : option string)
    (emails : list Email) :
  truthy (key_of (primary ua) ak ok) = true ->
  forall (acc : list Email) (log : Log),
  exists new,
    snd (categorize_loop complete ua ak ok emails acc log) = log ++ new
    /\ Forall keyed new
    /\ length emails <= length new <= 2 * length emails.
Proof.
  intros Hp. induction emails as [|e rest IH]; intros acc log; simpl.
  - exists []. rewrite app_nil_r. split; [reflexivity|]. split; [constructor | simpl; lia].
  - unfold bind. rewrite categorize_one_eq. simpl.
    assert (Hkp : keyed (request_of (primary ua) (key_of (primary ua) ak ok) e)).
    { unfold keyed. now rewrite rq_api_key_request_of. }
    destruct (complete (length log)) as [t|].
    + destruct (IH (acc ++ [set_category (validated t) e]) (log ++ [request_of (primary ua) (key_of (primary ua) ak ok) e]))
        as (new & Hnew & Hall & Hlen).
      exists (request_of (primary ua) (key_of (primary ua) ak ok) e :: new).
      rewrite Hnew, <- app_assoc. simpl. split; [reflexivity|]. split; [now constructor | simpl; lia].
    + destruct (truthy (key_of (secondary ua) ak ok)) eqn:Hs.
      * match goal with |- context [categorize_loop _ _ _ _ rest ?a ?l] =>
          destruct (IH a l) as (new & Hnew & Hall & Hlen) end.
        exists (request_of (primary ua) (key_of (primary ua) ak ok) e
                :: request_of (secondary ua) (key_of (secondary ua) ak ok) e :: new).
        rewrite Hnew, <- app_assoc. simpl. split; [reflexivity|]. split; [|simpl; lia].
        constructor; [assumption|]. constructor; [|assumption].
        unfold keyed. now rewrite rq_api_key_request_of.
      * match goal with |- context [categorize_loop _ _ _ _ rest ?a ?l] =>
          destruct (IH a l) as (new & Hnew & Hall & Hlen) end.
        exists (request_of (primary ua) (key_of (primary ua) ak ok) e :: new).
        rewrite Hnew, <- app_assoc. simpl. split; [reflexivity|]. split; [now constructor | simpl; lia].
Qed.

(** X2. A run of [categorize_emails] with a usable key sends, for [n]
    emails, at least [n] and at most [2 n] requests, and every request it
    sends carries a configured (non-empty) API key. *)
Theorem categorize_emails_requests
    complete (ak ok : option string) (emails : list Email) (ua : bool) (log : Log) :
  usable_keys ak ok ua = true ->
  exists new,
    snd (categorize_emails complete ak ok emails ua log) = log ++ new
    /\ Forall keyed new
    /\ length emails <= length new <= 2 * length emails.
Proof.
  intros Hk. rewrite (categorize_emails_eq _ _ _ _ _ _ Hk).
  assert (Hp : truthy (key_of (primary (ua && truthy ak)) ak ok) = true).
  { unfold usable_keys in Hk. destruct ua, (truthy ak) eqn:Ha, (truthy ok) eqn:Ho;
      simpl in *; congruence. }
  destruct (categorize_loop_requests complete (ua && truthy ak) ak ok emails Hp [] log)
    as (new & Hnew & Hall & Hlen).
  destruct (categorize_loop _ _ _ _ _ _ _) as [out log']. simpl in *.
  now exists new.
Qed.

Lemma categorize_emails_requests_witness :
  usable_keys (Some "ka") (Some "ko") true = true /\
  exists new,
    snd (categorize_emails (first_fails "invoice") (Some "ka") (Some "ko")
           [sample_email; sample_email] true []) = [] ++ new
    /\ Forall keyed new
    /\ 2 <= length new <= 4.
Proof.
  split; [reflexivity|].
  exact (categorize_emails_requests (first_fails "invoice") (Some "ka") (Some "ko")
           [sample_email; sample_email] true [] eq_refl).
Defined.

Lemma count_categories_spec (emails : list Email) :
  forall counts : list (string * nat),
    NoDup (map fst counts) ->
    let counts' := count_categories emails counts in
    NoDup (map fst counts')
    /\ list_sum (map snd counts') = list_sum (map snd counts) + length emails
    /\ forall c, dict_get_default c 0 counts'
                 = dict_get_default c 0 counts + length (List.filter (counted_as c) emails).
Proof.
  induction emails as [|e rest IH]; intros counts Hnd; simpl.
  - repeat split; [assumption | lia | intros; lia].
  - set (cat := default "other" (e_category e)).
    destruct (IH (dict_set cat (dict_get_default cat 0 counts + 1) counts)
                (dict_set_NoDup _ _ _ Hnd)) as (H1 & H2 & H3).
    split; [exact H1|]. split.
    + rewrite H2, dict_increment_sum. lia.
    + intros c. rewrite H3. unfold counted_as. fold cat.
      destruct (String.eqb cat c) eqn:E.
      * apply String.eqb_eq in E. subst c. unfold dict_get_default at 1.
        rewrite dict_get_set_eq. simpl. lia.
      * apply String.eqb_neq in E. unfold dict_get_default at 1.
        rewrite (dict_get_set_ne _ _ _ _ E). fold (dict_get_default c 0 counts). lia.
Qed.

(** X3. The document [save_categorization_results] writes: its
    [category_counts] entry lists each category once, gives for every
    category the number of emails counted under it (an email without a
    category counts as [other]) and adds up to its [total_emails] entry,
    which is the number of emails; its [emails] entry holds the emails in
    their order. *)
Theorem category_counts_add_up (emails : list Email) :
  exists (doc : dict) (counts : list (string * nat)),
    categorization_results emails = JObj doc
    /\ dict_get "category_counts" doc
       = Some (JObj (map (fun kv => (fst kv, JNum (inject_Z (Z.of_nat (snd kv))))) counts))
    /\ dict_get "total_emails" doc = Some (JNum (inject_Z (Z.of_nat (length emails))))
    /\ dict_get "emails" doc = Some (JArr (map email_to_json emails))
    /\ NoDup (map fst counts)
    /\ list_sum (map snd counts) = length emails
    /\ (forall c, dict_get_default c 0 counts
                  = length (List.filter (counted_as c) emails)).
Proof.
  destruct (count_categories_spec emails [] (NoDup_nil_2 (A:=string))) as (H1 & H2 & H3).
  simpl in H2, H3.
  exists [ ("total_emails", JNum (inject_Z (Z.of_nat (length emails))));
           ("category_counts",
            JObj (map (fun kv => (fst kv, JNum (inject_Z (Z.of_nat (snd kv)))))
                      (count_categories emails [])));
           ("emails", JArr (map email_to_json emails)) ].
  exists (count_categories emails []).
  split; [reflexivity|]. split; [reflexivity|]. split; [reflexivity|].
  split; [reflexivity|]. split; [exact H1|]. split; [exact H2 | exact H3].
Qed.

End CategorizeFacts.

(** ** Client contexts *)

Module ContextFacts.
Import Py Context.

Example sender_key : extract_sender_email "Ann Lee <Ann@X.com>" = "ann@x.com".
Proof. reflexivity. Qed.

Example sender_key_bare : extract_sender_email "  Foo@Bar.com " = "foo@bar.com".
Proof. reflexivity. Qed.

Example sender_key_empty_brackets : extract_sender_email "a <> b <x@y.z>" = "> b <x@y.z".
Proof. reflexivity. Qed.

Example sender_name_unquoted :
  extract_sender_name (dq +:+ "Ann" +:+ dq +:+ " <a@b>") = "Ann".
Proof. reflexivity. Qed.

(** *** Sender keys *)

Lemma is_lt_lower_char (c : ascii) : is_lt (lower_char c) = is_lt c.
Proof. destruct c as [[] [] [] [] [] [] [] []]; reflexivity. Qed.

Lemma is_gt_lower_char (c : ascii) : is_gt (lower_char c) = is_gt c.
Proof. destruct c as [[] [] [] [] [] [] [] []]; reflexivity. Qed.

Lemma is_newline_lower_char (c : ascii) : is_newline (lower_char c) = is_newline c.
Proof. destruct c as [[] [] [] [] [] [] [] []]; reflexivity. Qed.

Lemma lazy_group_lower (rest : list ascii) :
  forall acc : list ascii,
    lazy_group (map lower_char acc) (map lower_char rest)
    = map lower_char <$> lazy_group acc rest.
Proof.
  induction rest as [|c r IH]; intros acc; simpl; [reflexivity|].
  rewrite is_gt_lower_char, is_newline_lower_char.
  destruct (is_gt c); [reflexivity|]. destruct (is_newline c); [reflexivity|].
  rewrite <- IH, map_app. reflexivity.
Qed.

Lemma search_angle_lower (l : list ascii) :
  search_angle (map lower_char l) = map lower_char <$> search_angle l.
Proof.
  induction l as [|c r IH]; simpl; [reflexivity|].
  rewrite is_lt_lower_char. destruct (is_lt c); [|exact IH].
  assert (Hg : group_here (map lower_char r) = map lower_char <$> group_here r).
  { destruct r as [|d r']; simpl; [reflexivity|].
    rewrite is_newline_lower_char. destruct (is_newline d); [reflexivity|].
    apply (lazy_group_lower r' [d]). }
  rewrite Hg. destruct (group_here r); simpl; [reflexivity | exact IH].
Qed.

Lemma extract_sender_email_lower (from_field : string) :
  extract_sender_email (lower from_field) = extract_sender_email from_field.
Proof.
  unfold extract_sender_email.
  rewrite PyFacts.list_ascii_of_lower, search_angle_lower.
  destruct (search_angle (list_ascii_of_string from_field)) as [g|]; simpl.
  - rewrite <- PyFacts.lower_of_list.
    now rewrite PyFacts.strip_lower, PyFacts.lower_idem.
  - now rewrite PyFacts.strip_lower, PyFacts.lower_idem.
Qed.

(** X9. The sender key does not depend on letter case: two [From]
    fields that are equal up to the case of their letters give the same
    key, hence the same context file. *)
Theorem sender_key_ignores_case (from1 from2 : string) :
  lower from1 = lower from2 ->
  extract_sender_email from1 = extract_sender_email from2.
Proof.
  intros H. rewrite <- (extract_sender_email_lower from1), H.
  apply extract_sender_email_lower.
Qed.

Lemma sender_key_ignores_case_witness :
  lower "Ann Lee <Ann@X.com>" = lower "ANN LEE <ann@x.COM>" /\
  extract_sender_email "Ann Lee <Ann@X.com>" = extract_sender_email "ANN LEE <ann@x.COM>".
Proof.
  split; [reflexivity|].
  apply sender_key_ignores_case. reflexivity.
Defined.

Lemma lazy_group_finds (l post : list ascii) :
  Forall (fun c => is_gt c = false /\ is_newline c = false) l ->
  forall acc : list ascii,
    lazy_group acc (l ++ ">"%char :: post) = Some (acc ++ l).
Proof.
  induction 1 as [|c l [Hg Hn] _ IH]; intros acc; simpl.
  - now rewrite app_nil_r.
  - rewrite Hg, Hn, IH, <- app_assoc. reflexivity.
Qed.

Lemma search_angle_none (l : list ascii) :
  Forall (fun c => is_lt c = false) l -> search_angle l = None.
Proof. induction 1 as [|c l Hc _ IH]; simpl; [reflexivity | now rewrite Hc]. Qed.

Lemma search_angle_finds (pre addr post : list ascii) :
  Forall (fun c => is_lt c = false) pre ->
  addr <> [] ->
  Forall (fun c => is_gt c = false /\ is_newline c = false) addr ->
  search_angle (pre ++ "<"%char :: addr ++ ">"%char :: post) = Some addr.
Proof.
  intros Hpre Hne Haddr. induction Hpre as [|c l Hc _ IH]; simpl.
  - destruct addr as [|a addr']; [congruence|].
    inversion Haddr as [|? ? [Hg Hn] Hrest]; subst. simpl. rewrite Hn.
    now rewrite (lazy_group_finds addr' post Hrest [a]).
  - now rewrite Hc.
Qed.

(** X10. For a [From] field of the form [name <address> rest], where
    [name] has no [<] and [address] is not empty and has neither [>] nor
    a newline, the sender key is the address, stripped and lower-cased;
    for a field without any [<] it is the whole field, stripped and
    lower-cased. *)
Theorem sender_key_is_bracketed_address (name address rest from_field : string) :
  Forall (fun c => is_lt c = false) (list_ascii_of_string name) ->
  address <> EmptyString ->
  Forall (fun c => is_gt c = false /\ is_newline c = false) (list_ascii_of_string address) ->
  Forall (fun c => is_lt c = false) (list_ascii_of_string from_field) ->
  extract_sender_email (name +:+ "<" +:+ address +:+ ">" +:+ rest) = lower (strip address)
  /\ extract_sender_email from_field = lower (strip from_field).
Proof.
  intros Hname Hne Haddr Hbare. unfold extract_sender_email. split.
  - rewrite !PyFacts.list_ascii_of_string_app. simpl.
    rewrite (search_angle_finds _ _ _ Hname).
    + now rewrite string_of_list_ascii_of_string.
    + destruct address; [congruence | discriminate].
    + exact Haddr.
  - now rewrite (search_angle_none _ Hbare).
Qed.

Lemma sender_key_is_bracketed_address_witness :
  extract_sender_email ("Ann Lee " +:+ "<" +:+ " Ann@X.com " +:+ ">" +:+ " (via list)")
  = "ann@x.com"
  /\ extract_sender_email " Bob@Y.org " = "bob@y.org".
Proof.
  assert (H1 : Forall (fun c => is_lt c = false) (list_ascii_of_string "Ann Lee ")).
  { repeat constructor. }
  assert (H2 : Forall (fun c => is_gt c = false /\ is_newline c = false)
                      (list_ascii_of_string " Ann@X.com ")).
  { repeat constructor. }
  assert (H3 : Forall (fun c => is_lt c = false) (list_ascii_of_string " Bob@Y.org ")).
  { repeat constructor. }
  assert (H0 : " Ann@X.com " <> EmptyString) by discriminate.
  exact (sender_key_is_bracketed_address "Ann Lee " " Ann@X.com " " (via list)"
           " Bob@Y.org " H1 H0 H2 H3).
Defined.

(** *** What the two synthesis functions return *)

Section Shapes.

Variable analyse : nat -> option json.
Variable now : nat -> string.

Lemma add_action_items_shape (items : list json) :
  forall (ctx : ClientContext) (w : World),
    let res := add_action_items now items ctx w in
    client_email (fst res) = client_email ctx
    /\ first_contact (fst res) = first_contact ctx
    /\ last_contact (fst res) = last_contact ctx
    /\ communications (fst res) = communications ctx
    /\ (exists new, action_items (fst res) = action_items ctx ++ new
                    /\ length new = length items)
    /\ files (snd res) = files w
    /\ requests (snd res) = requests w.
Proof.
  induction items as [|item rest IH]; intros ctx w; simpl.
  - repeat split; try reflexivity. exists []. now rewrite app_nil_r.
  - unfold bind, datetime_now. simpl.
    match goal with |- context [add_action_items now rest ?c ?w'] =>
      destruct (IH c w') as (H1 & H2 & H3 & H4 & (new & H5 & H6) & H7 & H8) end.
    simpl in *. repeat split; try assumption.
    eexists (_ :: new). rewrite H5, <- app_assoc. simpl. split; [reflexivity|].
    simpl. now rewrite H6.
Qed.

Lemma basic_update_shape (ctx : ClientContext) (e : Email) (w : World) :
  let res := basic_update now ctx e w in
  fst res =
    set_timestamps (e_date e) (now (ticks w))
      (append_communication
         {| comm_email_id := e_id e; comm_date := e_date e; comm_subject := e_subject e;
            comm_topic := JStr "Follow-up"; comm_key_points := JArr [] |} ctx)
  /\ files (snd res) = files w
  /\ requests (snd res) = requests w.
Proof. unfold basic_update, bind, datetime_now, ret. simpl. repeat split. Qed.

(** A merge keeps the key and the first contact, takes the date of the
    email as last contact, extends the two sequences at their end, and
    touches no file. *)
Lemma update_existing_context_shape (ctx : ClientContext) (e : Email)
    (key : option string) (w : World) :
  let res := update_existing_context analyse now ctx e key w in
  client_email (fst res) = client_email ctx
  /\ first_contact (fst res) = first_contact ctx
  /\ last_contact (fst res) = e_date e
  /\ communications (fst res)
     = communications ctx ++ appended_records (analyse (length (requests w))) e
  /\ (exists new, action_items (fst res) = action_items ctx ++ new)
  /\ only_asks (FollowUp ctx e) w (snd res).
Proof.
  unfold update_existing_context, only_asks, bind, send.
  destruct (analyse (length (requests w))) as [[| b | q | t | l | d]|] eqn:E;
    try (unfold basic_update, bind, datetime_now, ret; simpl;
         repeat split; exists []; now rewrite app_nil_r).
  unfold appended_records.
  destruct (py_iter (dict_get_default "new_action_items" (JArr []) d)) as [items|].
  - unfold bind, datetime_now, ret.
    match goal with |- context [add_action_items now items ?c ?w0] =>
      pose proof (add_action_items_shape items c w0) as Hs;
      destruct (add_action_items now items c w0) as [c' w'] end.
    simpl in Hs. destruct Hs as (H1 & H2 & H3 & H4 & (new & H5 & _) & H7 & H8).
    simpl. repeat split; try assumption. now exists new.
  - unfold basic_update, bind, datetime_now, ret. simpl. repeat split.
    + now rewrite <- app_assoc.
    + exists []. now rewrite app_nil_r.
Qed.

(** A new record carries the sender key, the date of the email twice and
    one communication that describes the email. *)
Lemma create_new_context_shape (e : Email) (key : option string) (w : World) :
  let res := create_new_context analyse now e key w in
  client_email (fst res) = extract_sender_email (e_from e)
  /\ first_contact (fst res) = e_date e
  /\ last_contact (fst res) = e_date e
  /\ (exists r, communications (fst res) = [r] /\ records_of e [r])
  /\ only_asks (NewInquiry e) w (snd res).
Proof.
  unfold create_new_context, only_asks, records_of, bind, send, datetime_now, ret. simpl.
  destruct (analyse (length (requests w))) as [[| b | q | t | l | d]|]; simpl;
    repeat split; eexists; (split; [reflexivity|]); split;
    try discriminate; repeat constructor.
Qed.

Lemma appended_records_of (reply : option json) (e : Email) :
  records_of e (appended_records reply e).
Proof.
  unfold records_of, appended_records.
  destruct reply as [[| b | q | t | l | d]|]; cbv zeta;
    try destruct (py_iter _); (split; [discriminate | repeat constructor]).
Qed.

(** A failed request, and an answer whose [new_action_items] can be
    iterated, add exactly one record. *)
Lemma appended_records_single (reply : option json) (e : Email) :
  (reply = None
   \/ exists analysis, reply = Some (JObj analysis)
        /\ is_Some (py_iter (dict_get_default "new_action_items" (JArr []) analysis))) ->
  length (appended_records reply e) = 1.
Proof.
  intros [-> | (analysis & -> & [items Hitems])]; [reflexivity|].
  unfold appended_records. cbv zeta. now rewrite Hitems.
Qed.

(** *** One turn of the loop *)

Lemma well_keyed_insert (fs : gmap string ClientContext) (c : ClientContext) :
  well_keyed fs -> well_keyed (<[client_email c := c]> fs).
Proof.
  intros Hwk k c' Hl. destruct (decide (client_email c = k)) as [<-|Hne].
  - rewrite lookup_insert_eq in Hl. now inversion Hl.
  - rewrite lookup_insert_ne in Hl by assumption. now apply Hwk.
Qed.

Lemma manage_one_existing (key : option string) (e : Email) (w : World) (c : ClientContext) :
  files w !! extract_sender_email (e_from e) = Some c ->
  let c' := fst (update_existing_context analyse now c e key w) in
  files (snd (manage_one analyse now key e w)) = <[client_email c := c']> (files w)
  /\ client_email c' = client_email c
  /\ length (requests (snd (manage_one analyse now key e w))) = S (length (requests w)).
Proof.
  intros Hl. unfold manage_one, bind, load_context, save_context, ret. rewrite Hl.
  destruct (update_existing_context_shape c e key w) as (H1 & _ & _ & _ & _ & H6 & H7).
  destruct (update_existing_context analyse now c e key w) as [c' w']. simpl in *.
  rewrite H1, H6, H7, length_app. simpl. repeat split. lia.
Qed.

Lemma manage_one_new (key : option string) (e : Email) (w : World) :
  files w !! extract_sender_email (e_from e) = None ->
  let c' := fst (create_new_context analyse now e key w) in
  files (snd (manage_one analyse now key e w))
  = <[extract_sender_email (e_from e) := c']> (files w)
  /\ length (requests (snd (manage_one analyse now key e w))) = S (length (requests w)).
Proof.
  intros Hl. unfold manage_one, bind, load_context, save_context, ret. rewrite Hl.
  destruct (create_new_context_shape e key w) as (H1 & _ & _ & _ & H6 & H7).
  destruct (create_new_context analyse now e key w) as [c' w']. simpl in *.
  rewrite H1, H6, H7, length_app. simpl. repeat split. lia.
Qed.

Lemma manage_one_well_keyed (key : option string) (e : Email) (w : World) :
  well_keyed (files w) -> well_keyed (files (snd (manage_one analyse now key e w))).
Proof.
  intros Hwk. destruct (files w !! extract_sender_email (e_from e)) as [c|] eqn:Hl.
  - destruct (manage_one_existing key e w c Hl) as (Hf & Hk & _). rewrite Hf, <- Hk.
    now apply well_keyed_insert.
  - destruct (manage_one_new key e w Hl) as (Hf & _). rewrite Hf.
    destruct (create_new_context_shape e key w) as (H1 & _). simpl in H1.
    rewrite <- H1. now apply well_keyed_insert.
Qed.

(** *** The loop over the emails of one sender *)

Lemma manage_loop_unfold (key : option string) (e : Email) (rest : list Email)
    (n m : nat) (w : World) :
  exists n' m',
    manage_loop analyse now key (e :: rest) n m w
    = manage_loop analyse now key rest n' m' (snd (manage_one analyse now key e w)).
Proof.
  simpl. unfold bind. destruct (manage_one analyse now key e w) as [[] w']; simpl; eauto.
Qed.

Lemma manage_loop_well_keyed (key : option string) (es : list Email) :
  forall (n m : nat) (w : World),
    well_keyed (files w) -> well_keyed (files (snd (manage_loop analyse now key es n m w))).
Proof.
  induction es as [|e rest IH]; intros n m w Hwk; [assumption|].
  destruct (manage_loop_unfold key e rest n m w) as (n' & m' & ->).
  apply IH. now apply manage_one_well_keyed.
Qed.

(** Over a record that exists and is well keyed, the emails of its sender
    extend [communications] at the end, in the order of the emails. *)
Lemma manage_loop_same_sender (key : option string) (k : string) (es : list Email) :
  forall (n m : nat) (w : World) (c : ClientContext),
    well_keyed (files w) ->
    files w !! k = Some c ->
    Forall (fun e => extract_sender_email (e_from e) = k) es ->
    exists c' recss,
      files (snd (manage_loop analyse now key es n m w)) !! k = Some c'
      /\ communications c' = communications c ++ concat recss
      /\ Forall2 records_of es recss
      /\ first_contact c' = first_contact c.
Proof.
  induction es as [|e rest IH]; intros n m w c Hwk Hl Hall.
  - exists c, []. simpl. rewrite app_nil_r. repeat split; [assumption | constructor].
  - inversion Hall as [|? ? He Hrest]; subst.
    destruct (manage_loop_unfold key e rest n m w) as (n' & m' & ->).
    pose proof (manage_one_well_keyed key e w Hwk) as Hwk'.
    destruct (manage_one_existing key e w c Hl) as (Hf & Hk & _).
    destruct (update_existing_context_shape c e key w) as (_ & Hfc & _ & Hc & _).
    simpl in Hc, Hfc.
    assert (Hl' : files (snd (manage_one analyse now key e w))
                  !! extract_sender_email (e_from e)
                  = Some (fst (update_existing_context analyse now c e key w))).
    { rewrite Hf, (Hwk _ _ Hl). apply lookup_insert_eq. }
    destruct (IH n' m' _ _ Hwk' Hl' Hrest) as (c' & recss & Hc' & Hcomm & Hrecs & Hfc').
    exists c', (appended_records (analyse (length (requests w))) e :: recss).
    repeat split.
    + assumption.
    + rewrite Hcomm, Hc. simpl. now rewrite <- app_assoc.
    + constructor; [apply appended_records_of | assumption].
    + now rewrite Hfc'.
Qed.

(** After the first client email of a sender the record exists. *)
Lemma manage_one_creates_or_extends (key : option string) (e : Email) (w : World) :
  well_keyed (files w) ->
  exists c', files (snd (manage_one analyse now key e w)) !! extract_sender_email (e_from e)
             = Some c'.
Proof.
  intros Hwk. destruct (files w !! extract_sender_email (e_from e)) as [c|] eqn:Hl.
  - destruct (manage_one_existing key e w c Hl) as (Hf & _). rewrite Hf, (Hwk _ _ Hl).
    eexists. apply lookup_insert_eq.
  - destruct (manage_one_new key e w Hl) as (Hf & _). rewrite Hf.
    eexists. apply lookup_insert_eq.
Qed.

Lemma manage_client_contexts_world (key : option string) (es : list Email) (w : World) :
  truthy key = true ->
  Forall (fun e => is_client_email e = true) es ->
  snd (manage_client_contexts analyse now key es w)
  = snd (manage_loop analyse now key es 0 0 w).
Proof.
  intros Hkey Hall. unfold manage_client_contexts. rewrite Hkey. simpl.
  replace (List.filter is_client_email es) with es.
  - unfold bind, ret. now destruct (manage_loop analyse now key es 0 0 w).
  - symmetry. induction Hall as [|e l He _ IH]; simpl; [reflexivity|].
    now rewrite He, IH.
Qed.

End Shapes.

(** *** What a run keeps *)

Section Runs.

Variable analyse : nat -> option json.
Variable now : nat -> string.













Lemma last_cons_default {A} (l : list A) (a d : A) : List.last (a :: l) d = List.last l a.
Proof.
  revert a d. induction l as [|b l IH]; intros a d; [reflexivity|].
  change (List.last (a :: b :: l) d) with (List.last (b :: l) d).
  now rewrite (IH b d), (IH b a).
Qed.

Lemma last_map_default {A B} (f : A -> B) (l : list A) (d : A) :
  List.last (map f l) (f d) = f (List.last l d).
Proof.
  revert d. induction l as [|a l IH]; intros d; [reflexivity|].
  change (map f (a :: l)) with (f a :: map f l).
  now rewrite !last_cons_default, IH.
Qed.

(** Over an existing record, the emails of its sender leave the date of
    the last one as last contact and at least one communication each. *)
Lemma manage_loop_last_contact (key : option string) (k : string) (es : list Email) :
  forall (n m : nat) (w : World) (c : ClientContext),
    well_keyed (files w) ->
    files w !! k = Some c ->
    Forall (fun e => extract_sender_email (e_from e) = k) es ->
    exists c',
      files (snd (manage_loop analyse now key es n m w)) !! k = Some c'
      /\ first_contact c' = first_contact c
      /\ last_contact c' = List.last (map e_date es) (last_contact c)
      /\ length (communications c) + length es <= length (communications c').
Proof.
  induction es as [|e rest IH]; intros n m w c Hwk Hl Hall.
  - exists c. simpl. repeat split; [assumption | lia].
  - inversion Hall as [|? ? He Hrest]; subst.
    destruct (manage_loop_unfold analyse now key e rest n m w) as (n' & m' & ->).
    pose proof (manage_one_well_keyed analyse now key e w Hwk) as Hwk'.
    destruct (manage_one_existing analyse now key e w c Hl) as (Hf & Hk & _).
    destruct (update_existing_context_shape analyse now c e key w)
      as (_ & Hfc & Hlc & Hc & _).
    simpl in Hc, Hfc, Hlc.
    assert (Hl' : files (snd (manage_one analyse now key e w))
                  !! extract_sender_email (e_from e)
                  = Some (fst (update_existing_context analyse now c e key w))).
    { rewrite Hf, (Hwk _ _ Hl). apply lookup_insert_eq. }
    destruct (IH n' m' _ _ Hwk' Hl' Hrest) as (c' & Hc' & Hfc' & Hlc' & Hlen).
    exists c'. split; [assumption|]. split; [congruence|]. split.
    + change (map e_date (e :: rest)) with (e_date e :: map e_date rest).
      now rewrite last_cons_default, Hlc', Hlc.
    + rewrite Hc, length_app in Hlen.
      destruct (appended_records_of (analyse (length (requests w))) e) as [Hne _].
      destruct (appended_records (analyse (length (requests w))) e); [congruence|].
      simpl in *. lia.
Qed.

End Runs.

(** *** Plain keys *)


















(** X8. For a sender without a stored record, a run over client emails
    that all come from that sender leaves a record whose first contact is
    the date of the first email, whose last contact is the date of the
    last email, and which has at least one communication per email. *)
Theorem first_and_last_contact_of_new_sender
    (analyse : nat -> option json) (now : nat -> string) (key : option string)
    (k : string) (e : Email) (es : list Email) (w : World) :
  truthy key = true ->
  well_keyed (files w) ->
  files w !! k = None ->
  Forall (fun x => extract_sender_email (e_from x) = k /\ is_client_email x = true)
         (e :: es) ->
  exists c,
    files (snd (manage_client_contexts analyse now key (e :: es) w)) !! k = Some c
    /\ first_contact c = e_date e
    /\ last_contact c = e_date (List.last es e)
    /\ S (length es) <= length (communications c).
Proof.
  intros Hkey Hwk Hnone Hall.
  assert (Hk : Forall (fun x => extract_sender_email (e_from x) = k) (e :: es)).
  { eapply Forall_impl; [exact Hall|]. now intros x [H _]. }
  assert (Hc : Forall (fun x => is_client_email x = true) (e :: es)).
  { eapply Forall_impl; [exact Hall|]. now intros x [_ H]. }
  rewrite (manage_client_contexts_world analyse now key (e :: es) w Hkey Hc).
  inversion Hk as [|? ? Hke Hkes]; subst.
  destruct (manage_loop_unfold analyse now key e es 0 0 w) as (n & m & ->).
  destruct (manage_one_new analyse now key e w Hnone) as (Hf & _).
  destruct (create_new_context_shape analyse now e key w)
    as (_ & Hfc & Hlc & (r & Hr & _) & _).
  simpl in Hfc, Hlc, Hr.
  assert (Hl1 : files (snd (manage_one analyse now key e w))
                !! extract_sender_email (e_from e)
                = Some (fst (create_new_context analyse now e key w))).
  { rewrite Hf. apply lookup_insert_eq. }
  destruct (manage_loop_last_contact analyse now key _ es n m _ _
              (manage_one_well_keyed analyse now key e w Hwk) Hl1 Hkes)
    as (c & Hl & Hfc' & Hlc' & Hlen).
  exists c. split; [assumption|]. split; [congruence|]. split.
  - now rewrite Hlc', Hlc, last_map_default.
  - rewrite Hr in Hlen. simpl in Hlen. lia.
Qed.

Lemma first_and_last_contact_of_new_sender_witness :
  truthy (Some "k") = true /\
  well_keyed (files empty_world) /\
  files empty_world !! "ann@x.com" = None /\
  Forall (fun x => extract_sender_email (e_from x) = "ann@x.com"
                   /\ is_client_email x = true) [mail1; mail2] /\
  exists c,
    files (snd (manage_client_contexts (always follow_up_answer) clock (Some "k")
                  [mail1; mail2] empty_world)) !! "ann@x.com" = Some c
    /\ first_contact c = "2024-01-01T10:00:00"
    /\ last_contact c = "2024-01-02T10:00:00"
    /\ 2 <= length (communications c).
Proof.
  assert (Hwk : well_keyed (files empty_world)).
  { intros k c H. simpl in H. rewrite lookup_empty in H. discriminate H. }
  assert (Hall : Forall (fun x => extract_sender_email (e_from x) = "ann@x.com"
                                  /\ is_client_email x = true) [mail1; mail2]).
  { repeat constructor. }
  split; [reflexivity|]. split; [exact Hwk|]. split; [reflexivity|]. split; [exact Hall|].
  exact (first_and_last_contact_of_new_sender (always follow_up_answer) clock (Some "k")
           "ann@x.com" mail1 [mail2] empty_world eq_refl Hwk eq_refl Hall).
Defined.

(** *** Two runs over a growing list *)

Example null_items_appends_twice :
  map comm_topic
    (communications
       (fst (update_existing_context (always null_items_answer) clock march_context mail1
               (Some "k") empty_world)))
  = [JStr "Quote"; JStr "Follow-up"].
Proof. reflexivity. Qed.

(** C1 does not hold as stated: with a provider that answers every
    request properly, the first run over [mail1; mail2] leaves two records
    for the sender, and the second run over [mail1; mail2; mail3], started
    from the files of the first, leaves five: [mail1] and [mail2] are
    recorded again. *)
Lemma second_run_records_earlier_emails_again :
  let w1 := snd (manage_client_contexts (always follow_up_answer) clock (Some "k")
                   [mail1; mail2] empty_world) in
  let w2 := snd (manage_client_contexts (always follow_up_answer) clock (Some "k")
                   [mail1; mail2; mail3] (restart w1)) in
  exists c1 c2,
    files w1 !! "ann@x.com" = Some c1
    /\ files w2 !! "ann@x.com" = Some c2
    /\ map comm_email_id (communications c1) = ["m1"; "m2"]
    /\ map comm_email_id (communications c2) = ["m1"; "m2"; "m1"; "m2"; "m3"]
    /\ forall r, communications c2 <> communications c1 ++ [r].
Proof.
  eexists _, _. split; [vm_compute; reflexivity|].
  split; [vm_compute; reflexivity|].
  split; [reflexivity|]. split; [reflexivity|].
  intros r H. apply (f_equal (@length _)) in H. discriminate H.
Qed.

(** C1, amended.  For three client emails of one sender and a store in
    which every record sits under its own key: after a run over [e1; e2]
    and a second run over [e1; e2; e3] started from the files of the
    first, the sender's [communications] is the sequence left by the first
    run, unchanged and in the same order, followed by the records the
    second run adds for [e1], for [e2] and for [e3], in that order and at
    least one for each. *)
Theorem second_run_extends_communications
    (analyse1 analyse2 : nat -> option json) (now1 now2 : nat -> string)
    (key : option string) (k : string) (e1 e2 e3 : Email) (w0 : World) :
  truthy key = true ->
  well_keyed (files w0) ->
  Forall (fun e => extract_sender_email (e_from e) = k /\ is_client_email e = true)
         [e1; e2; e3] ->
  let w1 := snd (manage_client_contexts analyse1 now1 key [e1; e2] w0) in
  let w2 := snd (manage_client_contexts analyse2 now2 key [e1; e2; e3] (restart w1)) in
  exists c1 c2 r1 r2 r3,
    files w1 !! k = Some c1
    /\ files w2 !! k = Some c2
    /\ communications c2 = communications c1 ++ r1 ++ r2 ++ r3
    /\ records_of e1 r1 /\ records_of e2 r2 /\ records_of e3 r3.
Proof.
  intros Hkey Hwk Hall w1 w2.
  assert (Hk : Forall (fun e => extract_sender_email (e_from e) = k) [e1; e2; e3]).
  { eapply Forall_impl; [exact Hall|]. now intros e [H _]. }
  assert (Hc : Forall (fun e => is_client_email e = true) [e1; e2; e3]).
  { eapply Forall_impl; [exact Hall|]. now intros e [_ H]. }
  inversion Hk as [|? ? Hk1 Hk23]; subst. inversion Hc as [|? ? Hc1 Hc23]; subst.
  inversion Hk23 as [|? ? Hk2 Hk3]; subst. inversion Hc23 as [|? ? Hc2 Hc3]; subst.
  (* the first run *)
  assert (Hw1 : w1 = snd (manage_loop analyse1 now1 key [e1; e2] 0 0 w0)).
  { apply manage_client_contexts_world; [assumption | now repeat constructor]. }
  assert (Hwk1 : well_keyed (files w1)).
  { rewrite Hw1. now apply manage_loop_well_keyed. }
  assert (Hex : exists c1, files w1 !! extract_sender_email (e_from e1) = Some c1).
  { rewrite Hw1.
    destruct (manage_loop_unfold analyse1 now1 key e1 [e2] 0 0 w0) as (n & m & ->).
    destruct (manage_one_creates_or_extends analyse1 now1 key e1 w0 Hwk) as (c & Hl).
    destruct (manage_loop_same_sender analyse1 now1 key _ [e2] n m _ c
                (manage_one_well_keyed analyse1 now1 key e1 w0 Hwk) Hl)
      as (c1 & _ & Hl1 & _).
    - now repeat constructor.
    - now exists c1. }
  destruct Hex as (c1 & Hl1).
  (* the second run *)
  assert (Hw2 : w2 = snd (manage_loop analyse2 now2 key [e1; e2; e3] 0 0 (restart w1))).
  { apply manage_client_contexts_world; assumption. }
  destruct (manage_loop_same_sender analyse2 now2 key _ [e1; e2; e3] 0 0 (restart w1) c1
              Hwk1 Hl1 Hk) as (c2 & recss & Hl2 & Hcomm & Hrecs & _).
  inversion Hrecs as [|? r1 ? l1 Hr1 Hrest1]; subst.
  inversion Hrest1 as [|? r2 ? l2 Hr2 Hrest2]; subst.
  inversion Hrest2 as [|? r3 ? l3 Hr3 Hrest3]; subst.
  inversion Hrest3; subst.
  exists c1, c2, r1, r2, r3. rewrite Hw2. repeat split; try assumption;
    try (apply Hr1 || apply Hr2 || apply Hr3).
  rewrite Hcomm. simpl. now rewrite app_nil_r.
Qed.

Lemma second_run_extends_communications_witness :
  truthy (Some "k") = true /\
  well_keyed (files empty_world) /\
  Forall (fun e => extract_sender_email (e_from e) = "ann@x.com"
                   /\ is_client_email e = true) [mail1; mail2; mail3] /\
  let w1 := snd (manage_client_contexts down clock (Some "k") [mail1; mail2] empty_world) in
  let w2 := snd (manage_client_contexts (always follow_up_answer) clock (Some "k")
                   [mail1; mail2; mail3] (restart w1)) in
  exists c1 c2 r1 r2 r3,
    files w1 !! "ann@x.com" = Some c1
    /\ files w2 !! "ann@x.com" = Some c2
    /\ communications c2 = communications c1 ++ r1 ++ r2 ++ r3
    /\ records_of mail1 r1 /\ records_of mail2 r2 /\ records_of mail3 r3.
Proof.
  assert (Hwk : well_keyed (files empty_world)).
  { intros k c H. simpl in H. rewrite lookup_empty in H. discriminate H. }
  assert (Hall : Forall (fun e => extract_sender_email (e_from e) = "ann@x.com"
                                  /\ is_client_email e = true) [mail1; mail2; mail3]).
  { repeat constructor. }
  split; [reflexivity|]. split; [exact Hwk|]. split; [exact Hall|].
  exact (second_run_extends_communications down (always follow_up_answer) clock clock
           (Some "k") "ann@x.com" mail1 mail2 mail3 empty_world eq_refl Hwk Hall).
Defined.

(** *** The last contact *)

(** C5 does not hold as stated: merging an email dated 1 January 2024
    into a record whose last contact is 15 March 2024 moves the last
    contact back to 1 January. *)
Lemma last_contact_moves_back :
  let c' := fst (update_existing_context (always follow_up_answer) clock march_context mail1
                   (Some "k") empty_world) in
  last_contact march_context = "2024-03-15T09:00:00"
  /\ last_contact c' = "2024-01-01T10:00:00"
  /\ earlier (last_contact c') (last_contact march_context).
Proof. repeat split. Qed.

(** C5, amended.  After merging an email into an existing context, the
    last contact is the date of that email, whatever it was before and
    whatever the provider answers. *)
Theorem last_contact_is_date_of_merged_email
    (analyse : nat -> option json) (now : nat -> string)
    (context : ClientContext) (email : Email) (key : option string) (w : World) :
  last_contact (fst (update_existing_context analyse now context email key w))
  = e_date email.
Proof.
  now destruct (update_existing_context_shape analyse now context email key w)
    as (_ & _ & H & _).
Qed.

(** *** Failure of the provider *)



(** *** The name of the sender *)

Lemma split_once_l_fst_free (c : ascii) (s : list ascii) :
  Forall (fun x => x <> c) (fst (split_once_l [c] s)).
Proof.
  induction s as [|a s IH].
  - simpl. constructor.
  - change (split_once_l [c] (a :: s))
      with (if Ascii.eqb c a && true
            then ([], Some (drop 1 (a :: s)))
            else let '(h, t) := split_once_l [c] s in (a :: h, t)).
    destruct (Ascii.eqb c a) eqn:E; simpl; [constructor|].
    destruct (split_once_l [c] s) as [h t]. simpl in *.
    constructor; [|exact IH]. apply Ascii.eqb_neq in E. congruence.
Qed.

(** X26. The client name [extract_sender_name] gives is never empty, has
    no [<] in it, and neither starts nor ends with a double quote; for a
    [From] field without [<] it is [Unknown]. *)
Theorem sender_name_is_never_empty (from_field : string) :
  let name := list_ascii_of_string (extract_sender_name from_field) in
  name <> []
  /\ Forall (fun c => c <> "<"%char) name
  /\ (forall c, head name = Some c -> c <> "034"%char)
  /\ (forall c, last name = Some c -> c <> "034"%char)
  /\ (contains "<" from_field = false -> extract_sender_name from_field = "Unknown").
Proof.
  cbv zeta. unfold extract_sender_name.
  assert (Hunknown :
    let name := list_ascii_of_string "Unknown" in
    name <> []
    /\ Forall (fun c => c <> "<"%char) name
    /\ (forall c, head name = Some c -> c <> "034"%char)
    /\ (forall c, last name = Some c -> c <> "034"%char)).
  { simpl. split; [discriminate|]. split; [repeat constructor; discriminate|].
    split; intros c Hc; inversion Hc; discriminate. }
  destruct (contains "<" from_field).
  2:{ destruct Hunknown as (H1 & H2 & H3 & H4). repeat split; assumption. }
  assert (Hfree : Forall (fun c => c <> "<"%char)
                    (list_ascii_of_string (split_0 "<" from_field))).
  { unfold split_0, split_once. simpl list_ascii_of_string at 2.
    pose proof (split_once_l_fst_free "<" (list_ascii_of_string from_field)) as H.
    destruct (split_once_l ["<"%char] (list_ascii_of_string from_field)) as [h t].
    simpl in *. now rewrite list_ascii_of_string_of_list_ascii. }
  destruct (PyFacts.strip_chars_spec _ is_space _ Hfree) as (Hs & _ & _).
  fold (strip (split_0 "<" from_field)) in Hs.
  destruct (PyFacts.strip_chars_spec _ (Ascii.eqb "034") _ Hs) as (Hn & Hh & Hl).
  destruct (strip_chars (Ascii.eqb "034") (strip (split_0 "<" from_field)))
    as [|a r] eqn:En.
  - destruct Hunknown as (H1 & H2 & H3 & H4).
    split; [exact H1|]. split; [exact H2|]. split; [exact H3|]. split; [exact H4|].
    discriminate.
  - split; [discriminate|]. split; [exact Hn|].
    split; [|split; [|discriminate]].
    + intros c Hc. apply Hh in Hc. apply Ascii.eqb_neq in Hc. congruence.
    + intros c Hc. apply Hl in Hc. apply Ascii.eqb_neq in Hc. congruence.
Qed.

End ContextFacts.

(** ** Extraction and review *)

Module ExtractFacts.
Import Py Extract.

Example round2_fifth : round2 (1 # 5) = 1 # 5.
Proof. reflexivity. Qed.

Example round2_third : round2 (1 # 3) = 33 # 100.
Proof. reflexivity. Qed.

Example round2_two_thirds : round2 (2 # 3) = 67 # 100.
Proof. reflexivity. Qed.

Example unfence_json_block :
  unfence (json_fence +:+ nl +:+ "{}" +:+ nl +:+ fence) = Some "{}".
Proof. reflexivity. Qed.

Example unfence_plain_block :
  unfence ("Here: " +:+ fence +:+ nl +:+ "{}" +:+ nl +:+ fence +:+ " done") = Some "{}".
Proof. reflexivity. Qed.

Example unfence_bare : unfence "{}" = Some "{}".
Proof. reflexivity. Qed.

(** *** The confidence of an extraction *)

Lemma extract_invoice_data_with_llm_eq
    (complete : nat -> option string) (json_loads : string -> option json)
    (text filename : string) (api_key : option string) (w : World)
    (content json_text : string) (data : dict) :
  complete (length (requests w)) = Some content ->
  unfence (strip content) = Some json_text ->
  json_loads json_text = Some (JObj data) ->
  fst (extract_invoice_data_with_llm complete json_loads text filename api_key w)
  = Some (dict_set "confidence"
            (JNum (round2 (inject_Z (Z.of_nat (fields_found data)) / 5))) data).
Proof.
  intros Hc Hu Hj. unfold extract_invoice_data_with_llm, bind, send. rewrite Hc, Hu, Hj.
  reflexivity.
Qed.

(** Scenario of the specification: only the vendor was found. *)
Example sender_only_confidence :
  fst (extract_invoice_data_with_llm (always "{...}") (reads_as sender_only)
         "ACME invoice" "a.pdf" (Some "k") empty_world)
  = Some (sender_only ++ [("confidence", JNum (1 # 5))]).
Proof. reflexivity. Qed.

(** When the answer has the five requested keys and no other, the
    confidence is the count of the required fields that are not null,
    divided by five, and lies between 0 and 1. *)
Lemma confidence_of_five_keys (date sender invoice_number amount currency : json) :
  let data := [ ("date", date); ("sender", sender); ("invoice_number", invoice_number);
                ("amount", amount); ("currency", currency) ] in
  let confidence := round2 (inject_Z (Z.of_nat (fields_found data)) / 5) in
  fields_found data = required_found data
  /\ (confidence == inject_Z (Z.of_nat (required_found data)) / 5)%Q
  /\ (0 <= confidence)%Q /\ (confidence <= 1)%Q.
Proof.
  unfold fields_found, required_found, dict_values. simpl.
  destruct (is_null date), (is_null sender), (is_null invoice_number),
    (is_null amount), (is_null currency); simpl;
    (split; [reflexivity | split; [reflexivity | split; discriminate]]).
Qed.

(** C4 at an answer with a sixth key: all six values are counted, the
    five required fields are all present, and the confidence is 1.2. *)
Theorem confidence_counts_every_key
    (complete : nat -> option string) (json_loads : string -> option json)
    (text filename : string) (api_key : option string) (w : World)
    (content json_text : string) :
  complete (length (requests w)) = Some content ->
  unfence (strip content) = Some json_text ->
  json_loads json_text = Some (JObj six_keys) ->
  fst (extract_invoice_data_with_llm complete json_loads text filename api_key w)
  = Some (six_keys ++ [("confidence", JNum (6 # 5))])
  /\ required_found six_keys = 5
  /\ ~ (6 # 5 <= 1)%Q.
Proof.
  intros Hc Hu Hj.
  rewrite (extract_invoice_data_with_llm_eq _ _ _ _ _ _ _ _ _ Hc Hu Hj).
  split; [reflexivity | split; [reflexivity|]].
  unfold Qle. simpl. lia.
Qed.

Lemma confidence_counts_every_key_witness :
  always "{...}" (length (requests empty_world)) = Some "{...}" /\
  unfence (strip "{...}") = Some "{...}" /\
  reads_as six_keys "{...}" = Some (JObj six_keys) /\
  fst (extract_invoice_data_with_llm (always "{...}") (reads_as six_keys)
         "Invoice #4471, Total Due: $230.00" "a.pdf" (Some "k") empty_world)
  = Some (six_keys ++ [("confidence", JNum (6 # 5))])
  /\ required_found six_keys = 5
  /\ ~ (6 # 5 <= 1)%Q.
Proof.
  split; [reflexivity | split; [reflexivity | split; [reflexivity|]]].
  exact (confidence_counts_every_key (always "{...}") (reads_as six_keys)
           "Invoice #4471, Total Due: $230.00" "a.pdf" (Some "k") empty_world
           "{...}" "{...}" eq_refl eq_refl eq_refl).
Defined.






Lemma take_str_length (n : nat) (s : string) : String.length (take_str n s) <= n.
Proof.
  unfold take_str. revert s. induction n as [|n IH]; intros [|c s]; simpl; try lia.
  specialize (IH s). lia.
Qed.

Lemma take_str_prefix (n : nat) (s : string) : String.prefix (take_str n s) s = true.
Proof.
  unfold take_str. revert s. induction n as [|n IH]; intros [|c s]; simpl; try reflexivity.
  destruct (ascii_dec c c); [apply IH | congruence].
Qed.

Lemma prefix_refl (s : string) : String.prefix s s = true.
Proof.
  induction s as [|c s IH]; simpl; [reflexivity|].
  destruct (ascii_dec c c); [exact IH | congruence].
Qed.

(** X12. [extract_invoice_data_with_llm] sends exactly one request; the
    text it submits is a prefix of the document text of at most 4000
    characters (the whole text when it is that short).  The call writes
    no file and does not read the clock, whether it succeeds or not. *)
Theorem extraction_sends_a_bounded_prefix
    (complete : nat -> option string) (json_loads : string -> option json)
    (text filename : string) (api_key : option string) (w : World) :
  let res := extract_invoice_data_with_llm complete json_loads text filename api_key w in
  exists r,
    requests (snd res) = requests w ++ [r]
    /\ rq_filename r = filename
    /\ String.prefix (rq_text_sample r) text = true
    /\ String.length (rq_text_sample r) <= 4000
    /\ (String.length text <= 4000 -> rq_text_sample r = text)
    /\ files (snd res) = files w
    /\ ticks (snd res) = ticks w.
Proof.
  cbv zeta. unfold extract_invoice_data_with_llm, bind, send, ret.
  set (sample := if (4000 <? String.length text)%nat then take_str 4000 text else text).
  assert (Hs : String.prefix sample text = true /\ String.length sample <= 4000
               /\ (String.length text <= 4000 -> sample = text)).
  { subst sample. destruct (4000 <? String.length text)%nat eqn:E.
    - apply Nat.ltb_lt in E. split; [apply take_str_prefix|].
      split; [apply take_str_length | lia].
    - apply Nat.ltb_ge in E. split; [apply prefix_refl|]. split; [exact E | reflexivity]. }
  destruct Hs as (H1 & H2 & H3).
  eexists {| rq_api_key := api_key; rq_model := "gpt-4o-mini"; rq_max_tokens := 200;
             rq_filename := filename; rq_text_sample := sample |}.
  destruct (complete (length (requests w))) as [content|]; simpl.
  2:{ repeat split; assumption. }
  destruct (unfence (strip content)) as [json_text|]; simpl.
  2:{ repeat split; assumption. }
  destruct (json_loads json_text) as [[| b | q | t | l | data]|]; simpl;
    repeat split; assumption.
Qed.

(** *** Markdown fences *)

Lemma split_once_l_contains (sep s : list ascii) :
  contains_l sep s = true -> exists t, snd (split_once_l sep s) = Some t.
Proof.
  induction s as [|c s IH]; simpl.
  - destruct (is_prefix sep []); simpl; [eauto | discriminate].
  - destruct (is_prefix sep (c :: s)); simpl; [eauto|].
    intros H. destruct (IH H) as (t & Ht).
    destruct (split_once_l sep s) as [h t']. simpl in *. eauto.
Qed.

Lemma split_1_contains (sep s : string) :
  contains sep s = true -> exists t, split_1 sep s = Some t.
Proof.
  unfold contains, split_1, split_once. intros H.
  destruct (split_once_l_contains _ _ H) as (t & Ht).
  destruct (split_once_l _ _) as [h t']. simpl in *. subst t'. simpl. eauto.
Qed.

(** X13. The markdown branch of the extraction never raises: for every
    answer text, [unfence] returns a text (the [split(...)[1]] it takes
    always exists). *)
Theorem unfence_never_fails (json_text : string) : exists t, unfence json_text = Some t.
Proof.
  unfold unfence. destruct (contains json_fence json_text) eqn:E1.
  - destruct (split_1_contains _ _ E1) as (t & ->). eauto.
  - destruct (contains fence json_text) eqn:E2; [|eauto].
    destruct (split_1_contains _ _ E2) as (t & ->). eauto.
Qed.

Lemma is_prefix_app (sep rest : list ascii) : is_prefix sep (sep ++ rest) = true.
Proof. induction sep as [|c sep IH]; simpl; [reflexivity|]. now rewrite Ascii.eqb_refl. Qed.

Lemma split_once_l_cons (sep : list ascii) (c : ascii) (s : list ascii) :
  split_once_l sep (c :: s)
  = if is_prefix sep (c :: s) then ([], Some (drop (length sep) (c :: s)))
    else (c :: fst (split_once_l sep s), snd (split_once_l sep s)).
Proof. simpl. destruct (is_prefix sep (c :: s)); [reflexivity|]. now destruct (split_once_l sep s). Qed.

Lemma is_prefix_tick (sep' : list ascii) (c : ascii) (s : list ascii) :
  no_tick c -> is_prefix ("`"%char :: sep') (c :: s) = false.
Proof.
  unfold no_tick. intros H.
  change (is_prefix ("`"%char :: sep') (c :: s))
    with (Ascii.eqb "`" c && is_prefix sep' s).
  now rewrite H.
Qed.

(** A separator that begins with a backtick is not found inside a text
    without backticks. *)
Lemma split_once_l_skip (sep' pre x : list ascii) :
  Forall no_tick pre ->
  split_once_l ("`"%char :: sep') (pre ++ x)
  = (pre ++ fst (split_once_l ("`"%char :: sep') x),
     snd (split_once_l ("`"%char :: sep') x)).
Proof.
  induction 1 as [|c pre Hc _ IH].
  - simpl app. now destruct (split_once_l _ x).
  - change ((c :: pre) ++ x) with (c :: (pre ++ x)).
    rewrite split_once_l_cons, (is_prefix_tick _ _ _ Hc), IH. reflexivity.
Qed.

Lemma contains_l_skip (sep' pre x : list ascii) :
  Forall no_tick pre ->
  contains_l ("`"%char :: sep') (pre ++ x) = contains_l ("`"%char :: sep') x.
Proof.
  induction 1 as [|c pre Hc _ IH]; [reflexivity|].
  change ((c :: pre) ++ x) with (c :: (pre ++ x)).
  change (contains_l ("`"%char :: sep') (c :: pre ++ x))
    with (is_prefix ("`"%char :: sep') (c :: pre ++ x)
          || contains_l ("`"%char :: sep') (pre ++ x)).
  now rewrite (is_prefix_tick _ _ _ Hc), IH.
Qed.

Lemma split_once_l_here (sep rest : list ascii) :
  split_once_l sep (sep ++ rest) = ([], Some rest).
Proof.
  destruct sep as [|c sep]; simpl.
  - now destruct rest.
  - rewrite Ascii.eqb_refl, is_prefix_app. simpl. now rewrite drop_app_length.
Qed.

Lemma is_prefix_tick2 (t : list ascii) (c : ascii) (s : list ascii) :
  no_tick c -> is_prefix ("`"%char :: "`"%char :: t) ("`"%char :: c :: s) = false.
Proof.
  intros H.
  change (is_prefix ("`"%char :: "`"%char :: t) ("`"%char :: c :: s))
    with (Ascii.eqb "`" "`" && is_prefix ("`"%char :: t) (c :: s)).
  now rewrite (is_prefix_tick _ _ _ H), andb_false_r.
Qed.

Lemma is_prefix_tick3 (t : list ascii) (c : ascii) (s : list ascii) :
  no_tick c ->
  is_prefix ("`"%char :: "`"%char :: "`"%char :: t) ("`"%char :: "`"%char :: c :: s) = false.
Proof.
  intros H.
  change (is_prefix ("`"%char :: "`"%char :: "`"%char :: t) ("`"%char :: "`"%char :: c :: s))
    with (Ascii.eqb "`" "`" && is_prefix ("`"%char :: "`"%char :: t) ("`"%char :: c :: s)).
  now rewrite (is_prefix_tick2 _ _ _ H), andb_false_r.
Qed.

Lemma contains_l_here (sep rest : list ascii) : contains_l sep (sep ++ rest) = true.
Proof.
  assert (H : forall s, contains_l sep s
                        = is_prefix sep s
                          || match s with [] => false | _ :: s' => contains_l sep s' end).
  { now intros [|c s]. }
  now rewrite H, is_prefix_app.
Qed.

(** What is left of [```] followed by a text without backticks, once cut
    at the next [```json], still begins with the fence or is empty. *)
Lemma closing_fence_found (post : list ascii) :
  Forall no_tick post ->
  fst (split_once_l (list_ascii_of_string fence)
         (fst (split_once_l (list_ascii_of_string json_fence)
                 (list_ascii_of_string fence ++ post)))) = [].
Proof.
  intros Hpost. destruct Hpost as [|c post Hc _]; [reflexivity|].
  change (list_ascii_of_string fence ++ c :: post)
    with ("`"%char :: "`"%char :: "`"%char :: c :: post).
  change (list_ascii_of_string json_fence)
    with ("`"%char :: "`"%char :: "`"%char :: list_ascii_of_string "json").
  rewrite split_once_l_cons.
  destruct (is_prefix _ ("`"%char :: "`"%char :: "`"%char :: c :: post)); [reflexivity|].
  rewrite split_once_l_cons, (is_prefix_tick3 _ _ _ Hc).
  rewrite split_once_l_cons, (is_prefix_tick2 _ _ _ Hc).
  rewrite split_once_l_cons, (is_prefix_tick _ _ _ Hc).
  reflexivity.
Qed.

Lemma split_0_eq (sep s : string) :
  split_0 sep s
  = string_of_list_ascii
      (fst (split_once_l (list_ascii_of_string sep) (list_ascii_of_string s))).
Proof. unfold split_0, split_once. now destruct (split_once_l _ _). Qed.

Lemma split_1_eq (sep s : string) :
  split_1 sep s
  = (fun t => split_0 sep (string_of_list_ascii t))
      <$> snd (split_once_l (list_ascii_of_string sep) (list_ascii_of_string s)).
Proof.
  unfold split_1, split_once. destruct (split_once_l _ _) as [h [t|]]; reflexivity.
Qed.

Lemma split_once_l_skip_fst (sep pre x : list ascii) :
  head sep = Some "`"%char ->
  Forall no_tick pre ->
  fst (split_once_l sep (pre ++ x)) = pre ++ fst (split_once_l sep x).
Proof.
  destruct sep as [|c sep']; [discriminate|]. intros H Hpre. inversion H; subst c.
  now rewrite (split_once_l_skip _ _ _ Hpre).
Qed.

Lemma fenced_body (body after : string) :
  Forall no_tick (list_ascii_of_string body) ->
  Forall no_tick (list_ascii_of_string after) ->
  split_0 fence
    (split_0 json_fence
       (string_of_list_ascii
          (list_ascii_of_string body ++ list_ascii_of_string fence
           ++ list_ascii_of_string after))) = body.
Proof.
  intros Hbody Hafter.
  rewrite (split_0_eq json_fence), list_ascii_of_string_of_list_ascii.
  rewrite (split_once_l_skip_fst (list_ascii_of_string json_fence) _ _ eq_refl Hbody).
  rewrite (split_0_eq fence), list_ascii_of_string_of_list_ascii.
  rewrite (split_once_l_skip_fst (list_ascii_of_string fence) _ _ eq_refl Hbody).
  rewrite (closing_fence_found _ Hafter), app_nil_r.
  apply string_of_list_ascii_of_string.
Qed.

(** X14. An answer of the form [before ```json body ``` after], where
    [before], [body] and [after] contain no backtick, is reduced to
    [body], stripped; an answer without any backtick is left as it is. *)
Theorem unfence_takes_the_json_block (before body after plain : string) :
  Forall no_tick (list_ascii_of_string before) ->
  Forall no_tick (list_ascii_of_string body) ->
  Forall no_tick (list_ascii_of_string after) ->
  Forall no_tick (list_ascii_of_string plain) ->
  unfence (before +:+ json_fence +:+ body +:+ fence +:+ after) = Some (strip body)
  /\ unfence plain = Some plain.
Proof.
  intros Hbefore Hbody Hafter Hplain. split.
  - unfold unfence, contains. rewrite split_1_eq.
    rewrite !PyFacts.list_ascii_of_string_app.
    change (list_ascii_of_string json_fence) with ("`"%char :: list_ascii_of_string "``json").
    rewrite (contains_l_skip _ _ _ Hbefore), (split_once_l_skip _ _ _ Hbefore).
    change ("`"%char :: list_ascii_of_string "``json") with (list_ascii_of_string json_fence).
    rewrite contains_l_here, split_once_l_here. simpl snd. simpl fmap. cbv iota.
    exact (f_equal (fun x => Some (strip x)) (fenced_body _ _ Hbody Hafter)).
  - unfold unfence, contains.
    pose proof (contains_l_skip (list_ascii_of_string "``json") _ [] Hplain) as H1.
    pose proof (contains_l_skip (list_ascii_of_string "``") _ [] Hplain) as H2.
    rewrite app_nil_r in H1, H2.
    change (list_ascii_of_string json_fence) with ("`"%char :: list_ascii_of_string "``json").
    change (list_ascii_of_string fence) with ("`"%char :: list_ascii_of_string "``").
    rewrite H1, H2. reflexivity.
Qed.

Lemma unfence_takes_the_json_block_witness :
  unfence ("Here it is: " +:+ json_fence +:+ (nl +:+ "{}" +:+ nl) +:+ fence +:+ " Done.")
  = Some "{}"
  /\ unfence "{}" = Some "{}".
Proof.
  assert (H1 : Forall no_tick (list_ascii_of_string "Here it is: ")) by repeat constructor.
  assert (H2 : Forall no_tick (list_ascii_of_string (nl +:+ "{}" +:+ nl)))
    by repeat constructor.
  assert (H3 : Forall no_tick (list_ascii_of_string " Done.")) by repeat constructor.
  assert (H4 : Forall no_tick (list_ascii_of_string "{}")) by repeat constructor.
  exact (unfence_takes_the_json_block "Here it is: " (nl +:+ "{}" +:+ nl) " Done." "{}"
           H1 H2 H3 H4).
Defined.

(** *** Vendor names *)

Example normalize_alias : normalize_sender_name (Some "Anthropic, PBC") = "anthropic".
Proof. reflexivity. Qed.

Example normalize_runs : normalize_sender_name (Some "A&B  Co--Ltd") = "a_b_co_ltd".
Proof. reflexivity. Qed.

Lemma sub_runs_chars (l : list ascii) :
  forall b : bool, Forall (fun c => name_char c = true) (sub_runs b l).
Proof.
  induction l as [|c l IH]; intros b; simpl; [constructor|].
  destruct (is_lower_alnum c) eqn:E.
  - constructor; [unfold name_char; now rewrite E | apply IH].
  - destruct b; [apply IH|]. constructor; [reflexivity | apply IH].
Qed.

Lemma mappings_values (k v : string) :
  dict_get k mappings = Some v -> In v ["anthropic"; "google"; "loom"; "apify"].
Proof.
  unfold mappings. simpl.
  repeat (destruct (String.eqb k _); [intros H; inversion H; simpl; tauto|]).
  discriminate.
Qed.

(** X15. Whatever the vendor name is, [normalize_sender_name] returns a
    name made of lower-case letters, digits and underscores only, that
    neither begins nor ends with an underscore. *)
Theorem normalized_names_are_safe (sender : option string) :
  safe_name (normalize_sender_name sender).
Proof.
  unfold normalize_sender_name. destruct (truthy sender); simpl negb; cbv iota.
  2:{ unfold safe_name. simpl. split; [repeat constructor | split; discriminate]. }
  set (subbed := string_of_list_ascii _).
  set (n := strip_chars (Ascii.eqb "_") subbed).
  unfold dict_get_default. destruct (dict_get n mappings) as [v|] eqn:E.
  - apply mappings_values in E. simpl in E.
    destruct E as [<-|[<-|[<-|[<-|[]]]]]; unfold safe_name; simpl;
      (split; [repeat constructor | split; discriminate]).
  - assert (Hs : Forall (fun c => name_char c = true) (list_ascii_of_string subbed)).
    { subst subbed. rewrite list_ascii_of_string_of_list_ascii. apply sub_runs_chars. }
    destruct (PyFacts.strip_chars_spec _ (Ascii.eqb "_") subbed Hs) as (H1 & H2 & H3).
    fold n in H1, H2, H3. unfold safe_name. cbv zeta. split; [exact H1|]. split.
    + intros Hh. now specialize (H2 _ Hh).
    + intros Hl. now specialize (H3 _ Hl).
Qed.

Lemma sub_runs_true_nil (l : list ascii) :
  Forall (fun c => is_lower_alnum c = false) l -> sub_runs true l = [].
Proof. induction 1 as [|c l Hc _ IH]; simpl; [reflexivity | now rewrite Hc]. Qed.

(** X16. A vendor name that is not empty but has no letter and no digit
    is normalized to the empty string, not to [unknown], which is what an
    absent or empty name gives. *)
Theorem names_without_letters_become_empty (sender : string) :
  sender <> EmptyString ->
  Forall (fun c => is_lower_alnum (lower_char c) = false) (list_ascii_of_string sender) ->
  normalize_sender_name (Some sender) = EmptyString
  /\ normalize_sender_name None = "unknown"
  /\ normalize_sender_name (Some EmptyString) = "unknown".
Proof.
  intros Hne Hall. split; [|split; reflexivity].
  unfold normalize_sender_name.
  destruct sender as [|c0 s0]; [congruence|]. simpl truthy. simpl negb. cbv iota.
  simpl default. rewrite PyFacts.list_ascii_of_lower.
  assert (Hl : Forall (fun c => is_lower_alnum c = false)
                      (map lower_char (list_ascii_of_string (String c0 s0)))).
  { apply Forall_map. exact Hall. }
  simpl list_ascii_of_string in *. simpl map in *.
  inversion Hl as [|? ? Hc Hrest]; subst.
  simpl sub_runs. rewrite Hc, (sub_runs_true_nil _ Hrest). reflexivity.
Qed.

Lemma names_without_letters_become_empty_witness :
  normalize_sender_name (Some "*** (!) ***") = EmptyString
  /\ normalize_sender_name None = "unknown"
  /\ normalize_sender_name (Some EmptyString) = "unknown".
Proof.
  assert (H0 : "*** (!) ***" <> EmptyString) by discriminate.
  assert (H1 : Forall (fun c => is_lower_alnum (lower_char c) = false)
                      (list_ascii_of_string "*** (!) ***")) by repeat constructor.
  exact (names_without_letters_become_empty "*** (!) ***" H0 H1).
Defined.

(** *** The review queue *)

Lemma low_confidence_below (threshold : Q) (inv : dict) :
  is_Some (confidence_of inv) ->
  low_confidence threshold inv = Some (below threshold inv).
Proof.
  unfold low_confidence, below, confidence_of.
  destruct (dict_get_default "confidence" (JNum 0) inv); intros [c Hc];
    try discriminate; reflexivity.
Qed.

Lemma review_queue_from_filter (threshold : Q) (invoices : list dict) :
  forall acc : list dict,
    Forall (fun inv => is_Some (confidence_of inv)) invoices ->
    review_queue_from threshold invoices acc
    = Some (acc ++ List.filter (below threshold) invoices).
Proof.
  induction invoices as [|inv rest IH]; intros acc Hall; simpl.
  - now rewrite app_nil_r.
  - inversion Hall as [|? ? Hinv Hrest]; subst.
    rewrite (low_confidence_below threshold inv Hinv).
    destruct (below threshold inv).
    + rewrite (IH _ Hrest), <- app_assoc. reflexivity.
    + apply (IH _ Hrest).
Qed.

Lemma filter_sublist {A} (p : A -> bool) (l : list A) : List.filter p l `sublist_of` l.
Proof.
  induction l as [|x l IH]; simpl; [constructor|].
  destruct (p x); now constructor.
Qed.

Lemma below_spec (threshold : Q) (inv : dict) :
  below threshold inv = true <-> exists q, confidence_of inv = Some q /\ (q < threshold)%Q.
Proof.
  unfold below, Qltb. destruct (confidence_of inv) as [q|].
  - rewrite negb_true_iff. split.
    + intros H. exists q. split; [reflexivity|].
      apply Qnot_le_lt. intros Hle. apply Qle_bool_iff in Hle. congruence.
    + intros (q' & Hq & Hlt). inversion Hq; subst q'.
      destruct (Qle_bool threshold q) eqn:E; [|reflexivity].
      apply Qle_bool_iff in E. exfalso. now apply (Qlt_not_le _ _ Hlt).
  - split; [discriminate | now intros (q & Hq & _)].
Qed.

Lemma generate_review_queue_writes (now : nat -> string) (invoices : list dict)
    (threshold : Q) (w : World) (inv : dict) (rest : list dict) :
  review_queue_from threshold invoices [] = Some (inv :: rest) ->
  generate_review_queue now invoices threshold w
  = (inr tt,
     {| files :=
          <[review_queue_path :=
              JObj [ ("generated_at", JStr (now (ticks w)));
                     ("total_for_review",
                      JNum (inject_Z (Z.of_nat (length (inv :: rest)))));
                     ("message",
                      JStr "These invoices have low confidence and should be manually reviewed");
                     ("invoices", JArr (map JObj (inv :: rest))) ]]> (files w);
        requests := requests w;
        ticks := S (ticks w) |}).
Proof.
  intros H. unfold generate_review_queue. rewrite H. reflexivity.
Qed.

(** C8. For invoices that each carry a numeric confidence (or none,
    which counts as 0) and any threshold, the review queue computed by
    [generate_review_queue] is the list of the invoices whose confidence
    is strictly below the threshold: it is a subsequence of the input in
    input order, made of the input records themselves, it misses none of
    them, and it is the list written to the artifact when not empty. *)
Theorem review_queue_is_low_confidence_subsequence
    (now : nat -> string) (invoices : list dict) (threshold : Q) (w : World) :
  Forall (fun inv => is_Some (confidence_of inv)) invoices ->
  exists review_queue,
    review_queue_from threshold invoices [] = Some review_queue
    /\ review_queue = List.filter (below threshold) invoices
    /\ review_queue `sublist_of` invoices
    /\ (forall inv, In inv review_queue <->
                    In inv invoices
                    /\ exists q, confidence_of inv = Some q /\ (q < threshold)%Q)
    /\ (review_queue <> [] ->
        exists doc,
          files (snd (generate_review_queue now invoices threshold w)) !! review_queue_path
          = Some (JObj doc)
          /\ dict_get "invoices" doc = Some (JArr (map JObj review_queue))).
Proof.
  intros Hall. exists (List.filter (below threshold) invoices).
  pose proof (review_queue_from_filter threshold invoices [] Hall) as Hrq.
  simpl in Hrq.
  split; [exact Hrq|]. split; [reflexivity|]. split; [apply filter_sublist|]. split.
  - intros inv. rewrite filter_In, below_spec. reflexivity.
  - intros Hne. destruct (List.filter (below threshold) invoices) as [|inv rest] eqn:E;
      [congruence|].
    rewrite (generate_review_queue_writes now invoices threshold w inv rest Hrq). simpl.
    eexists. split; [apply lookup_insert_eq | reflexivity].
Qed.

Lemma review_queue_is_low_confidence_subsequence_witness :
  let invoices := [invoice "Loom" (1 # 5); invoice "Apify" (4 # 5); invoice "Google" (3 # 5)] in
  Forall (fun inv => is_Some (confidence_of inv)) invoices /\
  exists review_queue,
    review_queue_from default_threshold invoices [] = Some review_queue
    /\ review_queue = [invoice "Loom" (1 # 5); invoice "Google" (3 # 5)].
Proof.
  assert (Hall : Forall (fun inv => is_Some (confidence_of inv))
            [invoice "Loom" (1 # 5); invoice "Apify" (4 # 5); invoice "Google" (3 # 5)]).
  { repeat constructor; eexists; reflexivity. }
  split; [exact Hall|].
  destruct (review_queue_is_low_confidence_subsequence clock _ default_threshold
              empty_world Hall) as (rq & H1 & H2 & _).
  exists rq. split; [exact H1 | exact H2].
Defined.

(** C10. When every invoice has a confidence that is not below the
    threshold, [generate_review_queue] changes nothing: no file is
    written, not even one with an empty list, and the clock is not read. *)
Theorem no_review_artifact_when_nothing_to_review
    (now : nat -> string) (invoices : list dict) (threshold : Q) (w : World) :
  Forall (fun inv => exists q, confidence_of inv = Some q /\ (threshold <= q)%Q) invoices ->
  generate_review_queue now invoices threshold w = (inr tt, w).
Proof.
  intros Hall.
  assert (Hnum : Forall (fun inv => is_Some (confidence_of inv)) invoices).
  { eapply Forall_impl; [exact Hall|]. intros inv (q & Hq & _). now exists q. }
  assert (Hnone : List.filter (below threshold) invoices = []).
  { clear Hnum. induction Hall as [|inv rest (q & Hq & Hle) _ IH]; simpl; [reflexivity|].
    destruct (below threshold inv) eqn:E; [|exact IH].
    apply below_spec in E. destruct E as (q' & Hq' & Hlt).
    rewrite Hq in Hq'. inversion Hq'; subst q'.
    exfalso. now apply (Qlt_not_le _ _ Hlt). }
  unfold generate_review_queue.
  rewrite (review_queue_from_filter threshold invoices [] Hnum), Hnone. reflexivity.
Qed.

Lemma no_review_artifact_when_nothing_to_review_witness :
  let invoices := [invoice "Apify" (4 # 5); invoice "Loom" (7 # 10); invoice "Google" 1] in
  Forall (fun inv => exists q, confidence_of inv = Some q /\ (default_threshold <= q)%Q)
         invoices /\
  generate_review_queue clock invoices default_threshold empty_world = (inr tt, empty_world).
Proof.
  assert (Hall : Forall (fun inv => exists q, confidence_of inv = Some q
                                              /\ (default_threshold <= q)%Q)
            [invoice "Apify" (4 # 5); invoice "Loom" (7 # 10); invoice "Google" 1]).
  { repeat constructor; eexists; (split; [reflexivity | discriminate]). }
  split; [exact Hall|].
  exact (no_review_artifact_when_nothing_to_review clock _ default_threshold empty_world Hall).
Defined.

(** *** Processing a directory *)


Section Processing.

Variable complete : nat -> option string.
Variable json_loads : string -> option json.
Variable now : nat -> string.




End Processing.






(** X19. With an API key and a directory without any PDF,
    [process_invoice_pdfs] returns a bare empty list instead of its pair,
    so the main block fails with [ValueError] when it unpacks the result:
    no metadata file and no error log are written. *)
Theorem main_fails_on_an_empty_directory
    (complete : nat -> option string) (json_loads : string -> option json)
    (now : nat -> string) (api_key : option string) (d : Disk) :
  truthy api_key = true ->
  fst (process_invoice_pdfs complete json_loads now api_key [] d) = inr NoPdfs
  /\ (exists msg, fst (main complete json_loads now api_key [] d) = Some (ValueError msg))
  /\ snd (main complete json_loads now api_key [] d) = d.
Proof.
  intros Hk. unfold main, bind, process_invoice_pdfs. rewrite Hk. simpl.
  split; [reflexivity|]. split; [eexists; reflexivity | reflexivity].
Qed.

Lemma main_fails_on_an_empty_directory_witness :
  truthy (Some "k") = true /\
  snd (main (always "{...}") (reads_as sender_only) clock (Some "k") [] empty_disk)
  = empty_disk.
Proof.
  split; [reflexivity|].
  exact (proj2 (proj2 (main_fails_on_an_empty_directory (always "{...}")
                         (reads_as sender_only) clock (Some "k") empty_disk eq_refl))).
Defined.

End ExtractFacts.

(** ** Labels *)

Module LabelsFacts.
Import Py Labels.

Example tagged_mail_has_label : has_assistant_label tagged_mail = true.
Proof. reflexivity. Qed.

Example refetched_id_is_opaque :
  has_assistant_label
    (refetch (gmail (snd (apply_gmail_labels up label_ids_of_service [invoice_mail]
                            fresh_mailbox))) invoice_mail) = false.
Proof. vm_compute. reflexivity. Qed.

(** *** Requests sent by the parts of the stage *)

Lemma sent_only_refl (P : Call -> Prop) (w : World) : sent_only P w w.
Proof. exists []. split; [now rewrite app_nil_r | constructor]. Qed.

Lemma sent_only_trans (P : Call -> Prop) (w1 w2 w3 : World) :
  sent_only P w1 w2 -> sent_only P w2 w3 -> sent_only P w1 w3.
Proof.
  intros (x1 & H1 & F1) (x2 & H2 & F2). exists (x1 ++ x2). split.
  - now rewrite H2, H1, <- app_assoc.
  - apply Forall_app. now split.
Qed.

Lemma sent_only_weaken (P Q : Call -> Prop) (w w' : World) :
  (forall c, P c -> Q c) -> sent_only P w w' -> sent_only Q w w'.
Proof.
  intros HPQ (x & H & F). exists x. split; [assumption|].
  eapply Forall_impl; [exact F | exact HPQ].
Qed.

Lemma sent_only_one (P : Call -> Prop) (w w' : World) (c : Call) :
  calls w' = calls w ++ [c] -> P c -> sent_only P w w'.
Proof. intros H Hc. exists [c]. split; [assumption | now repeat constructor]. Qed.

Lemma mutations_sent_only (w w' : World) :
  sent_only about_labels w w' -> mutations (calls w') = mutations (calls w).
Proof.
  intros (x & H & F). rewrite H. unfold mutations. rewrite List.filter_app.
  replace (List.filter is_modify x) with (@nil Call); [now rewrite app_nil_r|].
  symmetry. clear H. induction F as [|c l Hc _ IH]; simpl; [reflexivity|].
  unfold about_labels in Hc. now rewrite Hc.
Qed.

Section Frames.

Variable responds : nat -> bool.
Variable new_id : nat -> string.

Lemma get_or_create_label_frame (label_path : string) (w : World) :
  let w' := snd (get_or_create_label responds new_id label_path w) in
  message_labels (gmail w') = message_labels (gmail w)
  /\ sent_only about_labels w w'.
Proof.
  unfold get_or_create_label, bind, labels_list, labels_create, log, ret.
  destruct (responds (length (calls w))) eqn:E1; simpl.
  2:{ split; [reflexivity|]. now apply (sent_only_one _ _ _ ListLabels). }
  destruct (List.find _ (labels (gmail w))) as [l|]; simpl.
  { split; [reflexivity|]. now apply (sent_only_one _ _ _ ListLabels). }
  destruct (responds (length (calls w ++ [ListLabels]))); simpl;
    (split; [reflexivity|]);
    (exists [ListLabels; CreateLabel label_path]; split;
       [now rewrite <- app_assoc | now repeat constructor]).
Qed.

Lemma setup_labels_frame (label_map : list (string * string)) :
  forall (label_ids : list (string * string)) (w : World),
    let w' := snd (setup_labels responds new_id label_map label_ids w) in
    message_labels (gmail w') = message_labels (gmail w)
    /\ sent_only about_labels w w'.
Proof.
  induction label_map as [|[category label_path] rest IH]; intros label_ids w; simpl.
  - split; [reflexivity | apply sent_only_refl].
  - unfold bind.
    pose proof (get_or_create_label_frame label_path w) as Hg.
    destruct (get_or_create_label responds new_id label_path w) as [label_id w1].
    simpl in Hg. destruct Hg as (Hm & Hs).
    destruct (truthy label_id);
      match goal with |- context [setup_labels responds new_id rest ?ids w1] =>
        destruct (IH ids w1) as (Hm' & Hs') end;
      (split; [now rewrite Hm', Hm | now apply (sent_only_trans _ w w1)]).
Qed.

(** An email that carries a label id with the name of the namespace is
    passed over: nothing is sent and nothing is counted. *)
Lemma label_one_skips (label_ids : list (string * string)) (email : Email)
    (acc : list (string * nat) * list LabelError) (w : World) :
  has_assistant_label email = true ->
  label_one responds label_ids email acc w = (acc, w).
Proof.
  intros H. unfold label_one. destruct acc as [label_counts errors]. now rewrite H.
Qed.

Lemma label_one_frame (label_ids : list (string * string)) (email : Email)
    (acc : list (string * nat) * list LabelError) (w : World) :
  sent_only (for_unlabelled has_assistant_label [email]) w
            (snd (label_one responds label_ids email acc w)).
Proof.
  unfold label_one. destruct acc as [label_counts errors].
  destruct (has_assistant_label email) eqn:E; [apply sent_only_refl|].
  destruct (truthy _); [|apply sent_only_refl].
  unfold bind, apply_label_to_email, messages_modify, log, ret.
  destruct (responds (length (calls w))); simpl;
    (eapply sent_only_one; [reflexivity|]);
    intros id lid Heq; inversion Heq; subst; exists email; simpl; auto.
Qed.

Lemma label_loop_frame (label_ids : list (string * string)) (emails : list Email) :
  forall (acc : list (string * nat) * list LabelError) (w : World),
    sent_only (for_unlabelled has_assistant_label emails) w
              (snd (label_loop responds label_ids emails acc w)).
Proof.
  induction emails as [|email rest IH]; intros acc w; simpl.
  - apply sent_only_refl.
  - unfold bind.
    pose proof (label_one_frame label_ids email acc w) as H1.
    destruct (label_one responds label_ids email acc w) as [acc1 w1]. simpl in H1.
    eapply sent_only_trans.
    + eapply sent_only_weaken; [|exact H1].
      intros c Hc id lid Heq. destruct (Hc id lid Heq) as (e & [<-|[]] & He).
      exists email. split; [now left | exact He].
    + eapply sent_only_weaken; [|apply IH].
      intros c Hc id lid Heq. destruct (Hc id lid Heq) as (e & Hin & He).
      exists e. split; [now right | exact He].
Qed.

Lemma label_loop_skips (label_ids : list (string * string)) (emails : list Email) :
  forall (acc : list (string * nat) * list LabelError) (w : World),
    Forall (fun e => has_assistant_label e = true) emails ->
    label_loop responds label_ids emails acc w = (acc, w).
Proof.
  induction emails as [|email rest IH]; intros acc w Hall; simpl; [reflexivity|].
  inversion Hall as [|? ? He Hrest]; subst.
  unfold bind. rewrite (label_one_skips label_ids email acc w He). now apply IH.
Qed.

End Frames.

(** *** Labels are created once *)

Lemma find_app_None {A} (f : A -> bool) (l1 l2 : list A) :
  List.find f l1 = None -> List.find f (l1 ++ l2) = List.find f l2.
Proof.
  induction l1 as [|a l1 IH]; simpl; [reflexivity|].
  destruct (f a); [discriminate | exact IH].
Qed.

Lemma get_or_create_label_found
    (responds : nat -> bool) (new_id : nat -> string) (label_path : string) (w : World)
    (l : Label) :
  responds (length (calls w)) = true ->
  List.find (fun label => String.eqb (label_name label) label_path) (labels (gmail w))
  = Some l ->
  get_or_create_label responds new_id label_path w
  = (Some (label_id l), {| gmail := gmail w; calls := calls w ++ [ListLabels] |}).
Proof.
  intros H0 Hf. unfold get_or_create_label, bind, labels_list, log, ret.
  rewrite H0. now rewrite Hf.
Qed.

Lemma get_or_create_label_created
    (responds : nat -> bool) (new_id : nat -> string) (label_path : string) (w : World) :
  responds (length (calls w)) = true ->
  responds (S (length (calls w))) = true ->
  List.find (fun label => String.eqb (label_name label) label_path) (labels (gmail w))
  = None ->
  get_or_create_label responds new_id label_path w
  = (Some (new_id (S (length (calls w)))),
     {| gmail := {| labels := labels (gmail w)
                              ++ [{| label_name := label_path;
                                     label_id := new_id (S (length (calls w))) |}];
                    message_labels := message_labels (gmail w) |};
        calls := (calls w ++ [ListLabels]) ++ [CreateLabel label_path] |}).
Proof.
  intros H0 H1 Hf. unfold get_or_create_label, bind, labels_list, labels_create, log, ret.
  rewrite H0. rewrite Hf. cbn [gmail calls].
  rewrite length_app, Nat.add_1_r, H1. reflexivity.
Qed.

(** X20. When the service answers, [get_or_create_label] returns an id
    for the label path, and calling it again right away returns the same
    id with a single list request: nothing is created a second time and
    the mailbox is left as it is. *)
Theorem labels_are_created_once
    (responds : nat -> bool) (new_id : nat -> string) (label_path : string) (w : World) :
  responds (length (calls w)) = true ->
  responds (S (length (calls w))) = true ->
  let first := get_or_create_label responds new_id label_path w in
  exists id,
    fst first = Some id
    /\ (responds (length (calls (snd first))) = true ->
        get_or_create_label responds new_id label_path (snd first)
        = (Some id, {| gmail := gmail (snd first);
                       calls := calls (snd first) ++ [ListLabels] |})).
Proof.
  intros H0 H1. cbv zeta.
  destruct (List.find (fun label => String.eqb (label_name label) label_path)
              (labels (gmail w))) as [l|] eqn:Ef.
  - rewrite (get_or_create_label_found _ _ _ _ _ H0 Ef). cbn [fst snd].
    exists (label_id l). split; [reflexivity|]. intros H2.
    now apply get_or_create_label_found.
  - rewrite (get_or_create_label_created _ _ _ _ H0 H1 Ef). cbn [fst snd].
    eexists. split; [reflexivity|]. intros H2.
    rewrite (get_or_create_label_found responds new_id label_path _
               {| label_name := label_path; label_id := new_id (S (length (calls w))) |} H2).
    + reflexivity.
    + cbn [gmail labels]. rewrite (find_app_None _ _ _ Ef). simpl.
      now rewrite String.eqb_refl.
Qed.

Lemma labels_are_created_once_witness :
  let first := get_or_create_label up label_ids_of_service "Email-Assistant/Invoice"
                 fresh_mailbox in
  exists id,
    fst first = Some id
    /\ (up (length (calls (snd first))) = true ->
        get_or_create_label up label_ids_of_service "Email-Assistant/Invoice" (snd first)
        = (Some id, {| gmail := gmail (snd first);
                       calls := calls (snd first) ++ [ListLabels] |})).
Proof.
  exact (labels_are_created_once up label_ids_of_service "Email-Assistant/Invoice"
           fresh_mailbox eq_refl eq_refl).
Defined.

(** *** The report *)

Section Report.

Variable responds : nat -> bool.

(** One turn adds at most one mutation, and counts it either as a label
    applied or as an error. *)
Lemma label_one_counts (label_ids : list (string * string)) (email : Email)
    (acc : list (string * nat) * list LabelError) (w : World) :
  let res := label_one responds label_ids email acc w in
  exists k,
    k <= 1
    /\ length (mutations (calls (snd res))) = length (mutations (calls w)) + k
    /\ list_sum (map snd (fst (fst res))) + length (snd (fst res))
       = list_sum (map snd (fst acc)) + length (snd acc) + k.
Proof.
  cbv zeta. unfold label_one. destruct acc as [counts errs].
  destruct (has_assistant_label email).
  { exists 0. simpl. repeat split; lia. }
  destruct (truthy _).
  2:{ exists 0. simpl. repeat split; lia. }
  unfold bind, apply_label_to_email, messages_modify, log, ret.
  destruct (responds (length (calls w))); cbn [fst snd calls]; exists 1;
    unfold mutations; rewrite List.filter_app, length_app; simpl.
  - rewrite dict_increment_sum_S. repeat split; lia.
  - rewrite length_app. simpl. repeat split; lia.
Qed.

Lemma label_loop_counts (label_ids : list (string * string)) (emails : list Email) :
  forall (acc : list (string * nat) * list LabelError) (w : World),
    let res := label_loop responds label_ids emails acc w in
    exists k,
      k <= length emails
      /\ length (mutations (calls (snd res))) = length (mutations (calls w)) + k
      /\ list_sum (map snd (fst (fst res))) + length (snd (fst res))
         = list_sum (map snd (fst acc)) + length (snd acc) + k.
Proof.
  induction emails as [|email rest IH]; intros acc w; simpl.
  - exists 0. repeat split; lia.
  - unfold bind. destruct (label_one_counts label_ids email acc w) as (k1 & Hk1 & Hm1 & Hs1).
    destruct (label_one responds label_ids email acc w) as [acc1 w1]. simpl in *.
    destruct (IH acc1 w1) as (k2 & Hk2 & Hm2 & Hs2).
    exists (k1 + k2). repeat split; lia.
Qed.

End Report.

(** X21. In the report of a pass, [labels_applied] plus the number of
    errors is exactly the number of mutations the pass sent, and is at
    most [total_processed], the number of emails given; [errors] in the
    summary is the length of the error list. *)
Theorem report_accounts_for_every_mutation
    (responds : nat -> bool) (new_id : nat -> string) (emails : list Email) (w : World) :
  let pass := apply_gmail_labels responds new_id emails w in
  let summary := fst (fst pass) in
  length (mutations (calls (snd pass)))
  = length (mutations (calls w)) + labels_applied summary + errors_count summary
  /\ labels_applied summary + errors_count summary <= total_processed summary
  /\ total_processed summary = length emails
  /\ errors_count summary = length (snd (fst pass)).
Proof.
  cbv zeta. unfold apply_gmail_labels, bind.
  pose proof (setup_labels_frame responds new_id LABEL_MAP [] w) as Hsetup.
  destruct (setup_labels responds new_id LABEL_MAP [] w) as [label_ids w1].
  simpl in Hsetup. destruct Hsetup as (_ & Hs). apply mutations_sent_only in Hs.
  set (counts := map (fun kv : string * string => (fst kv, 0)) LABEL_MAP).
  destruct (label_loop_counts responds label_ids emails (counts, []) w1)
    as (k & Hk & Hm & Hsum).
  destruct (label_loop responds label_ids emails (counts, []) w1) as [[c errs] w2].
  simpl in *. rewrite Hs in Hm. repeat split; lia.
Qed.

(** *** Classified emails get their label *)

Section ServiceUp.

Variable responds : nat -> bool.
Variable new_id : nat -> string.
Hypothesis answers : forall n, responds n = true.
Hypothesis fresh_ids : forall n, truthy (Some (new_id n)) = true.

Lemma get_or_create_label_up (label_path : string) (w : World) :
  ids_not_empty (gmail w) ->
  let res := get_or_create_label responds new_id label_path w in
  ids_not_empty (gmail (snd res))
  /\ exists id, fst res = Some id /\ truthy (Some id) = true.
Proof.
  intros Hids. cbv zeta.
  destruct (List.find (fun label => String.eqb (label_name label) label_path)
              (labels (gmail w))) as [l|] eqn:Ef.
  - rewrite (get_or_create_label_found _ _ _ _ _ (answers _) Ef). cbn [fst snd gmail].
    split; [exact Hids|]. exists (label_id l). split; [reflexivity|].
    apply find_some in Ef. destruct Ef as [Hin _].
    unfold ids_not_empty in Hids. rewrite List.Forall_forall in Hids. now apply Hids.
  - rewrite (get_or_create_label_created _ _ _ _ (answers _) (answers _) Ef).
    cbn [fst snd gmail]. split.
    + unfold ids_not_empty. cbn [labels]. apply Forall_app. split; [exact Hids|].
      constructor; [apply fresh_ids | constructor].
    + eexists. split; [reflexivity | apply fresh_ids].
Qed.

Lemma has_id_set (label_ids : list (string * string)) (c k id : string) :
  truthy (Some id) = true ->
  has_id label_ids k \/ k = c ->
  has_id (dict_set c id label_ids) k.
Proof.
  intros Hid H. destruct (String.eqb_spec c k) as [->|Hne].
  - exists id. split; [apply dict_get_set_eq | exact Hid].
  - destruct H as [(v & Hv & Ht)|Heq]; [|congruence].
    exists v. split; [now rewrite dict_get_set_ne | exact Ht].
Qed.

Lemma setup_labels_up (label_map : list (string * string)) :
  forall (label_ids : list (string * string)) (w : World) (k : string),
    ids_not_empty (gmail w) ->
    has_id label_ids k \/ In k (map fst label_map) ->
    has_id (fst (setup_labels responds new_id label_map label_ids w)) k.
Proof.
  induction label_map as [|[category label_path] rest IH]; intros label_ids w k Hids Hk.
  - simpl. destruct Hk as [Hk|[]]. exact Hk.
  - simpl. unfold bind.
    destruct (get_or_create_label_up label_path w Hids) as (Hids' & id & Hid & Ht).
    destruct (get_or_create_label responds new_id label_path w) as [label_id w1].
    simpl in Hid, Hids'. subst label_id. rewrite Ht. simpl default.
    apply IH; [exact Hids'|].
    destruct Hk as [Hk|[Hk|Hk]].
    + left. apply has_id_set; [exact Ht | now left].
    + left. apply has_id_set; [exact Ht | right; now subst].
    + now right.
Qed.

Lemma label_loop_up (label_ids : list (string * string)) (emails : list Email) :
  forall (acc : list (string * nat) * list LabelError) (w : World),
    Forall (fun e => has_assistant_label e = false
                     /\ has_id label_ids (default "other" (e_category e))) emails ->
    let res := label_loop responds label_ids emails acc w in
    snd (fst res) = snd acc
    /\ list_sum (map snd (fst (fst res))) = list_sum (map snd (fst acc)) + length emails
    /\ length (mutations (calls (snd res)))
       = length (mutations (calls w)) + length emails.
Proof.
  induction emails as [|email rest IH]; intros acc w Hall; simpl.
  - repeat split; lia.
  - inversion Hall as [|? ? [Hno (id & Hget & Ht)] Hrest]; subst.
    unfold bind, label_one. destruct acc as [counts errs]. rewrite Hno, Hget, Ht.
    unfold bind, apply_label_to_email, messages_modify, ret. rewrite answers.
    match goal with |- context [label_loop responds label_ids rest ?a ?w1] =>
      destruct (IH a w1 Hrest) as (H1 & H2 & H3) end.
    cbn [fst snd] in *. rewrite H1, H2, H3, dict_increment_sum_S.
    unfold mutations. cbn [calls]. rewrite List.filter_app, length_app. simpl.
    repeat split; lia.
Qed.

End ServiceUp.

(** X22. When the mail service answers every request and hands out
    non-empty label ids, a pass over emails that carry a category of the
    classifier's enumeration (or none, which counts as [other]) and no
    label id with the name of the namespace applies a label to every one
    of them: [labels_applied] is the number of emails, one mutation is
    sent per email, and the error list is empty. *)
Theorem classified_emails_all_get_a_label
    (responds : nat -> bool) (new_id : nat -> string) (emails : list Email) (w : World) :
  (forall n, responds n = true) ->
  (forall n, truthy (Some (new_id n)) = true) ->
  ids_not_empty (gmail w) ->
  Forall (fun e => has_assistant_label e = false
                   /\ In (default "other" (e_category e)) (map fst Categorize.CATEGORIES))
         emails ->
  let pass := apply_gmail_labels responds new_id emails w in
  labels_applied (fst (fst pass)) = length emails
  /\ snd (fst pass) = []
  /\ length (mutations (calls (snd pass))) = length (mutations (calls w)) + length emails.
Proof.
  intros Hup Hfresh Hids Hall. cbv zeta. unfold apply_gmail_labels, bind.
  pose proof (setup_labels_frame responds new_id LABEL_MAP [] w) as Hsetup.
  pose proof (fun k => setup_labels_up responds new_id Hup Hfresh LABEL_MAP [] w k Hids)
    as Hfilled.
  destruct (setup_labels responds new_id LABEL_MAP [] w) as [label_ids w1].
  simpl in Hsetup, Hfilled. destruct Hsetup as (_ & Hs). apply mutations_sent_only in Hs.
  set (counts := map (fun kv : string * string => (fst kv, 0)) LABEL_MAP).
  assert (Hall' : Forall (fun e => has_assistant_label e = false
                                   /\ has_id label_ids (default "other" (e_category e)))
                         emails).
  { eapply Forall_impl; [exact Hall|]. intros e [H1 H2]. split; [exact H1|].
    apply Hfilled. right. exact H2. }
  destruct (label_loop_up responds Hup label_ids emails (counts, []) w1 Hall')
    as (H1 & H2 & H3).
  destruct (label_loop responds label_ids emails (counts, []) w1) as [[c errs] w2].
  simpl in *. rewrite Hs in H3. repeat split; assumption.
Qed.

Lemma classified_emails_all_get_a_label_witness :
  let pass := apply_gmail_labels up label_ids_of_service [invoice_mail; invoice_mail]
                fresh_mailbox in
  labels_applied (fst (fst pass)) = 2
  /\ snd (fst pass) = []
  /\ length (mutations (calls (snd pass))) = 0 + 2.
Proof.
  assert (H1 : forall n, up n = true) by reflexivity.
  assert (H2 : forall n, truthy (Some (label_ids_of_service n)) = true) by reflexivity.
  assert (H3 : ids_not_empty (gmail fresh_mailbox)) by constructor.
  assert (H4 : Forall (fun e => has_assistant_label e = false
                                /\ In (default "other" (e_category e))
                                      (map fst Categorize.CATEGORIES))
                      [invoice_mail; invoice_mail]).
  { repeat constructor; simpl; tauto. }
  exact (classified_emails_all_get_a_label up label_ids_of_service
           [invoice_mail; invoice_mail] fresh_mailbox H1 H2 H3 H4).
Defined.

(** *** Two passes over the same emails *)

(** C2, at the failing input.  The guard of the labeling loop, which the
    source comments as skipping an email that already has an
    [Email-Assistant] label, looks for that text in the label ids of the
    email; these are the ids of the mail service, such as [Label_D], not
    the names of the labels.  First scenario: the service answers every
    request; the first pass labels [m1], the email is read again from
    the mailbox with [Label_D] among its label ids, and the second pass
    does not skip it but sends the same mutation again.  Second
    scenario: the mutation of the first pass is refused, so no label was
    applied; the second pass does not skip the email either. *)
Lemma second_pass_labels_again :
  (let pass1 := apply_gmail_labels up label_ids_of_service [invoice_mail] fresh_mailbox in
   let emails2 := map (refetch (gmail (snd pass1))) [invoice_mail] in
   let pass2 := apply_gmail_labels up label_ids_of_service emails2 (restart (snd pass1)) in
   labels_applied (fst (fst pass1)) = 1
   /\ map e_labelIds emails2 = [Some ["INBOX"; "Label_D"]]
   /\ mutations (calls (snd pass2)) = [ModifyMessage "m1" "Label_D"]
   /\ labels_applied (fst (fst pass2)) = 1)
  /\
  (let pass1 := apply_gmail_labels (fails_at 12) label_ids_of_service [invoice_mail]
                  fresh_mailbox in
   let emails2 := map (refetch (gmail (snd pass1))) [invoice_mail] in
   let pass2 := apply_gmail_labels up label_ids_of_service emails2 (restart (snd pass1)) in
   labels_applied (fst (fst pass1)) = 0
   /\ map e_labelIds emails2 = [Some ["INBOX"]]
   /\ mutations (calls (snd pass2)) = [ModifyMessage "m1" "Label_D"]).
Proof. vm_compute. repeat split. Qed.

End LabelsFacts.

(** ** organize_emails.py *)

Module OrchestrateFacts.
Import Py Orchestrate.

Lemma copy_fields_other (fields : list (string * string * json)) (doc : json) :
  forall (report report' : dict) (k : string),
    copy_fields fields doc report = inr report' ->
    ~ In k (map (fun f => fst (fst f)) fields) ->
    dict_get k report' = dict_get k report.
Proof.
  induction fields as [|[[key source] dflt] rest IH]; intros report report' k Hc Hk.
  - simpl in Hc. now inversion Hc.
  - simpl in Hc, Hk. destruct (get source dflt doc) as [e|v]; [discriminate|].
    rewrite (IH _ _ _ Hc) by tauto. apply dict_get_set_ne. tauto.
Qed.

Lemma load_block_other (path : string) (fields : list (string * string * json))
    (d : Disk) (report report' : dict) (k : string) :
  load_block path fields d report = inr report' ->
  ~ In k (map (fun f => fst (fst f)) fields) ->
  dict_get k report' = dict_get k report.
Proof.
  unfold load_block. intros Hl Hk.
  destruct (files d !! path) as [[doc|]|].
  - eapply copy_fields_other; eassumption.
  - discriminate.
  - now inversion Hl.
Qed.

Lemma copy_fields_no_exit (fields : list (string * string * json)) (doc : json) :
  forall (report : dict) (e : exn),
    copy_fields fields doc report = inl e -> e = AttributeError.
Proof.
  induction fields as [|[[key source] dflt] rest IH]; intros report e Hc; simpl in Hc.
  - discriminate.
  - destruct (get source dflt doc) as [e'|v] eqn:Eg.
    + destruct doc; simpl in Eg; congruence.
    + eauto.
Qed.

Lemma load_block_no_exit (path : string) (fields : list (string * string * json))
    (d : Disk) (report : dict) (e : exn) :
  load_block path fields d report = inl e -> e = AttributeError \/ e = JSONDecodeError.
Proof.
  unfold load_block. intros Hl. destruct (files d !! path) as [[doc|]|].
  - left. eapply copy_fields_no_exit; eassumption.
  - right. congruence.
  - discriminate.
Qed.

Lemma bind_eq {S A B} (m : State S A) (k : A -> State S B) (s : S) :
  bind m k s = k (fst (m s)) (snd (m s)).
Proof. unfold bind. now destruct (m s). Qed.

Section Workflow.

Variable subprocess_run : nat -> Run -> Disk -> Disk * Z.
Variable now : nat -> string.

Lemma run_script_spec (name : string) (args : list string) (s : System) :
  let cmd := {| script_name := name; script_args := args |} in
  let result := subprocess_run (length (launched s)) cmd (disk s) in
  run_script subprocess_run name args s
  = (Z.eqb (snd result) 0,
     {| disk := fst result; launched := launched s ++ [cmd]; ticks := ticks s |}).
Proof.
  cbv zeta. unfold run_script. now destruct (Z.eqb _ 0).
Qed.

(** What [generate_final_report] does: no process is launched; it never
    ends by [SystemExit]; when it returns, the report is on the disk and
    says [success]. *)
Lemma generate_final_report_spec (s : System) :
  let res := generate_final_report now s in
  launched (snd res) = launched s
  /\ (forall code, fst res <> inl (SystemExit code))
  /\ (forall report, fst res = inr report ->
        files (disk (snd res)) !! report_path = Some (Parsed (JObj report))
        /\ dict_get "status" report = Some (JStr "success")).
Proof.
  cbv zeta. unfold generate_final_report, bind, datetime_now.
  set (s1 := {| disk := disk s; launched := launched s; ticks := S (ticks s) |}).
  set (r0 := [("workflow_completed_at", JStr (now (ticks s))); ("status", JStr "success")]).
  assert (H0 : dict_get "status" r0 = Some (JStr "success")) by reflexivity.
  destruct (load_block categorization_path _ (disk s1) r0) as [e|r1] eqn:E1.
  { apply load_block_no_exit in E1. simpl.
    split; [reflexivity|]. split; [|discriminate].
    intros code; destruct E1; subst; discriminate. }
  assert (H1 : dict_get "status" r1 = dict_get "status" r0)
    by (apply (load_block_other _ _ _ _ _ "status" E1); simpl;
        intuition discriminate).
  destruct (load_block invoice_log_path _ (disk s1) r1) as [e|r2] eqn:E2.
  { apply load_block_no_exit in E2. simpl.
    split; [reflexivity|]. split; [|discriminate].
    intros code; destruct E2; subst; discriminate. }
  assert (H2 : dict_get "status" r2 = dict_get "status" r1)
    by (apply (load_block_other _ _ _ _ _ "status" E2); simpl;
        intuition discriminate).
  destruct (load_block dashboard_path _ (disk s1) r2) as [e|r3] eqn:E3.
  { apply load_block_no_exit in E3. simpl.
    split; [reflexivity|]. split; [|discriminate].
    intros code; destruct E3; subst; discriminate. }
  assert (H3 : dict_get "status" r3 = dict_get "status" r2)
    by (apply (load_block_other _ _ _ _ _ "status" E3); simpl;
        intuition discriminate).
  destruct (load_block drafts_path _ (disk s1) r3) as [e|r4] eqn:E4.
  { apply load_block_no_exit in E4. simpl.
    split; [reflexivity|]. split; [|discriminate].
    intros code; destruct E4; subst; discriminate. }
  assert (H4 : dict_get "status" r4 = dict_get "status" r3)
    by (apply (load_block_other _ _ _ _ _ "status" E4); simpl;
        intuition discriminate).
  assert (Hs : dict_get "status" r4 = Some (JStr "success")).
  { congruence. }
  unfold write_report. destruct (tmp_dir (disk s1)); simpl.
  - split; [reflexivity|]. split; [discriminate|].
    intros report Hr. inversion Hr; subst report.
    split; [apply lookup_insert_eq | exact Hs].
  - split; [reflexivity|]. split; [discriminate|]. discriminate.
Qed.

Lemma print_final_summary_no_exit (report : dict) (code : Z) :
  print_final_summary report <> Some (SystemExit code).
Proof.
  unfold print_final_summary.
  destruct (dict_get "category_counts" report) as [[]|]; try discriminate;
    (destruct (dict_get "invoices_downloaded" report); [|discriminate];
     destruct (gt_zero _) as [e|b] eqn:Eg; [|discriminate];
     unfold gt_zero in Eg;
     destruct (dict_get_default "dashboard_invoices" zero report); congruence).
Qed.

(** The tail of [main], from the third step on. *)
Lemma optional_steps_spec (s : System) :
  let tail :=
    bind (run_script subprocess_run "execution/process_invoices.py" []) (fun _ =>
    bind (run_script subprocess_run "execution/manage_client_context.py" []) (fun _ =>
    bind (run_script subprocess_run "execution/generate_draft_responses.py" []) (fun _ =>
    bind (run_script subprocess_run "execution/apply_gmail_labels.py" []) (fun _ =>
    bind (generate_final_report now) (fun report =>
      match report with
      | inl e => ret (Some e)
      | inr report => ret (print_final_summary report)
      end))))) in
  let res := tail s in
  launched (snd res)
  = launched s ++ [ {| script_name := "execution/process_invoices.py"; script_args := [] |};
                    {| script_name := "execution/manage_client_context.py"; script_args := [] |};
                    {| script_name := "execution/generate_draft_responses.py"; script_args := [] |};
                    {| script_name := "execution/apply_gmail_labels.py"; script_args := [] |} ]
  /\ (forall code, fst res <> Some (SystemExit code))
  /\ (fst res = None -> reports_success (disk (snd res))).
Proof.
  cbv zeta. unfold bind. rewrite !run_script_spec. cbn [fst snd launched disk ticks].
  match goal with |- context [generate_final_report now ?s4] =>
    pose proof (generate_final_report_spec s4) as (Hl & Hne & Hok);
    destruct (generate_final_report now s4) as [[e|report] s5] end.
  - cbn [fst snd launched] in *. unfold ret. cbn [fst snd].
    split; [|split].
    + rewrite Hl, <- !app_assoc. reflexivity.
    + intros code Hc. apply (Hne code). congruence.
    + discriminate.
  - cbn [fst snd launched] in *. unfold ret. cbn [fst snd].
    split; [|split].
    + rewrite Hl, <- !app_assoc. reflexivity.
    + intros code. apply print_final_summary_no_exit.
    + intros _. exists report. now apply Hok.
Qed.

End Workflow.

Lemma steps_cons (a0 a1 a2 : string) (rest : list string) :
  steps (a0 :: a1 :: a2 :: rest)
  = {| script_name := "execution/fetch_emails.py";
       script_args := [a1; a2; match rest with status :: _ => status | [] => "all" end] |}
    :: [ {| script_name := "execution/categorize_emails.py"; script_args := [] |};
         {| script_name := "execution/process_invoices.py"; script_args := [] |};
         {| script_name := "execution/manage_client_context.py"; script_args := [] |};
         {| script_name := "execution/generate_draft_responses.py"; script_args := [] |};
         {| script_name := "execution/apply_gmail_labels.py"; script_args := [] |} ].
Proof. now destruct rest. Qed.

(** X23. The child processes [main] launches are the first 0, 1, 2 or 6
    steps of the workflow, in order and with the dates and the status of
    the command line: none when the command line is too short, and
    fewer than six exactly when [main] ends by [sys.exit(1)]. *)
Theorem workflow_launches_a_prefix_of_its_steps
    (subprocess_run : nat -> Run -> Disk -> Disk * Z) (now : nat -> string)
    (argv : list string) (s : System) :
  let res := main subprocess_run now argv s in
  exists k,
    launched (snd res) = launched s ++ take k (steps argv)
    /\ (k = 0 \/ k = 1 \/ k = 2 \/ k = 6)
    /\ (k = 0 <-> length argv < 3)
    /\ (fst res = Some (SystemExit 1) <-> k < 6).
Proof.
  cbv zeta.
  destruct argv as [|a0 [|a1 [|a2 rest]]];
    try (exists 0; simpl; rewrite app_nil_r;
         split; [reflexivity|]; split; [tauto|]; split; split; intros; (lia || reflexivity)).
  unfold main. rewrite bind_eq, run_script_spec. cbn [fst snd].
  destruct (Z.eqb _ 0); cbn [negb].
  2:{ exists 1. rewrite steps_cons. unfold ret. cbn [fst snd launched].
      split; [reflexivity|]. split; [tauto|].
      split; split; intros; simpl in *; (lia || reflexivity). }
  rewrite bind_eq, run_script_spec. cbn [fst snd launched].
  destruct (Z.eqb _ 0); cbn [negb].
  2:{ exists 2. rewrite steps_cons. unfold ret. cbn [fst snd launched].
      rewrite <- app_assoc.
      split; [reflexivity|]. split; [tauto|].
      split; split; intros; simpl in *; (lia || reflexivity). }
  match goal with |- context [bind _ _ ?s2] =>
    destruct (optional_steps_spec subprocess_run now s2) as (Hl & Hne & _) end.
  cbn [launched] in Hl. exists 6.
  split; [rewrite steps_cons, Hl, <- !app_assoc; reflexivity|].
  split; [tauto|]. split; [simpl; split; intros; lia|].
  split; [intros He; exfalso; exact (Hne 1%Z He) | lia].
Qed.

(** X24. When the command line has its two dates and the two required
    steps return 0, the four later steps cannot stop the workflow,
    whatever they return: all six steps are launched, [main] never ends
    by [sys.exit], and whenever [main] returns, the report on the disk
    says [success]. *)
Theorem later_steps_cannot_stop_the_workflow
    (subprocess_run : nat -> Run -> Disk -> Disk * Z) (now : nat -> string)
    (argv : list string) (s : System) :
  3 <= length argv ->
  (forall n cmd d, is_required cmd = true -> snd (subprocess_run n cmd d) = 0%Z) ->
  let res := main subprocess_run now argv s in
  launched (snd res) = launched s ++ steps argv
  /\ (forall code, fst res <> Some (SystemExit code))
  /\ (fst res = None -> reports_success (disk (snd res))).
Proof.
  intros Hlen Hreq. cbv zeta.
  destruct argv as [|a0 [|a1 [|a2 rest]]]; try (simpl in Hlen; lia).
  unfold main. rewrite bind_eq, run_script_spec. cbn [fst snd].
  rewrite Hreq by reflexivity. cbn [Z.eqb negb].
  rewrite bind_eq, run_script_spec. cbn [fst snd launched].
  rewrite Hreq by reflexivity. cbn [Z.eqb negb].
  match goal with |- context [bind _ _ ?s2] =>
    destruct (optional_steps_spec subprocess_run now s2) as (Hl & Hne & Hok) end.
  cbn [launched] in Hl. split; [|split; assumption].
  rewrite steps_cons, Hl, <- !app_assoc. reflexivity.
Qed.

Lemma later_steps_cannot_stop_the_workflow_witness :
  let res := main only_required_succeed clock command_line empty_system in
  launched (snd res) = steps command_line
  /\ fst res = None
  /\ reports_success (disk (snd res)).
Proof.
  assert (Hlen : 3 <= length command_line) by (simpl; lia).
  assert (Hreq : forall n cmd d, is_required cmd = true ->
                   snd (only_required_succeed n cmd d) = 0%Z).
  { intros n cmd d H. unfold only_required_succeed. simpl. now rewrite H. }
  pose proof (later_steps_cannot_stop_the_workflow only_required_succeed clock
                command_line empty_system Hlen Hreq) as (H1 & _ & H3).
  split; [exact H1|]. split; [reflexivity|]. apply H3. reflexivity.
Defined.

(** X25. The final report repeats what the categorization stage saved:
    when [.tmp/categorization_results.json] holds the document
    [save_categorization_results] writes for [emails] and
    [generate_final_report] returns, the report gives the number of
    emails as [total_emails], and its [category_counts] add up to that
    number and give, for each category, the number of emails counted
    under it; whatever the other three summaries hold. *)
Theorem report_repeats_the_categorization
    (now : nat -> string) (emails : list Email) (s : System) (report : dict) :
  files (disk s) !! categorization_path
    = Some (Parsed (Categorize.categorization_results emails)) ->
  fst (generate_final_report now s) = inr report ->
  dict_get "total_emails" report = Some (JNum (inject_Z (Z.of_nat (length emails))))
  /\ exists counts : list (string * nat),
       dict_get "category_counts" report
       = Some (JObj (map (fun kv => (fst kv, JNum (inject_Z (Z.of_nat (snd kv))))) counts))
       /\ list_sum (map snd counts) = length emails
       /\ forall c, dict_get_default c 0 counts
                    = length (List.filter (Categorize.counted_as c) emails).
Proof.
  intros Hfile Hret.
  unfold generate_final_report, bind, datetime_now in Hret.
  cbn [fst snd disk] in Hret.
  destruct (load_block categorization_path _ (disk s) _) as [e|r1] eqn:E1;
    [discriminate|].
  unfold load_block in E1. rewrite Hfile in E1.
  unfold Categorize.categorization_results in E1.
  cbn [copy_fields get dict_get_default dict_get dict_set String.eqb Ascii.eqb Bool.eqb
       default] in E1.
  assert (Ht : dict_get "total_emails" r1
               = Some (JNum (inject_Z (Z.of_nat (length emails)))))
    by (inversion E1; reflexivity).
  assert (Hc : dict_get "category_counts" r1
               = Some (JObj (map (fun kv => (fst kv, JNum (inject_Z (Z.of_nat (snd kv)))))
                                 (Categorize.count_categories emails []))))
    by (inversion E1; reflexivity).
  clear E1.
  destruct (load_block invoice_log_path _ (disk s) r1) as [e|r2] eqn:E2;
    [discriminate|].
  destruct (load_block dashboard_path _ (disk s) r2) as [e|r3] eqn:E3;
    [discriminate|].
  destruct (load_block drafts_path _ (disk s) r3) as [e|r4] eqn:E4;
    [discriminate|].
  unfold write_report in Hret. cbn [disk] in Hret.
  destruct (tmp_dir (disk s)); [|discriminate]. cbn [fst] in Hret.
  inversion Hret; subst report.
  assert (Hkeep : forall k, k = "total_emails" \/ k = "category_counts" ->
                    dict_get k r4 = dict_get k r1).
  { intros k Hk.
    rewrite (load_block_other _ _ _ _ _ k E4), (load_block_other _ _ _ _ _ k E3),
            (load_block_other _ _ _ _ _ k E2);
      [reflexivity | | |]; simpl; destruct Hk; subst k; intuition discriminate. }
  rewrite !Hkeep by tauto. split; [exact Ht|].
  exists (Categorize.count_categories emails []).
  destruct (CategorizeFacts.count_categories_spec emails [] (NoDup_nil_2 (A:=string)))
    as (_ & H2 & H3).
  split; [exact Hc|]. split; [exact H2 | exact H3].
Qed.

Lemma report_repeats_the_categorization_witness :
  exists report,
    fst (generate_final_report clock categorized_system) = inr report
    /\ dict_get "total_emails" report = Some (JNum (inject_Z 2))
    /\ print_final_summary report = None.
Proof.
  eexists. split; [reflexivity|].
  split; [|reflexivity].
  exact (proj1 (report_repeats_the_categorization clock
                  [Categorize.sample_email; Categorize.sample_email]
                  categorized_system _ eq_refl eq_refl)).
Defined.

End OrchestrateFacts.
